(** * Automatic call tracing: [serialize_value] and [trace_protocol]

    A shallow embedding of
    [llama_stack/providers/utils/telemetry/trace_protocol.py].

    The file has four parts:
    - the Python values the code inspects, with the builtins [str] and
      [repr] it calls on them;
    - [serialize_value];
    - the wrappers that [trace_method] builds ([create_span_context],
      [sync_wrapper], [async_wrapper], [async_gen_wrapper]) over a model
      of the tracing backend;
    - the class table and the [__init_subclass__] hook that
      [trace_protocol] installs.

    Theorems about these definitions follow the definitions. *)

From Stdlib Require Import ZArith String Ascii List DecimalString Lia.
From stdpp Require Import gmap strings list.

Set Warnings "-register-all".

(** ** Errors and results *)

(** A raised exception.  [RecursionError] is what the interpreter raises
    when the call stack is exhausted; [TypeError] is what a call with the
    wrong arguments raises.  The other errors have an identity and the
    name of their class: [UserError] is an instance of [Exception] with
    the text that [str(e)] returns; [MuteError] is an instance of
    [Exception] whose [__str__] raises [failure]; [Signal] is an
    instance of [BaseException] that is not one of [Exception], such as
    [asyncio.CancelledError] or [KeyboardInterrupt]. *)
Inductive exn : Type :=
| RecursionError
| TypeError (msg : string)
| UserError (id : nat) (cls : string) (msg : string)
| MuteError (id : nat) (cls : string) (failure : exn)
| Signal (id : nat) (cls : string) (msg : string).

(** [isinstance(e, Exception)]: what [except Exception] catches. *)
Definition is_exception (e : exn) : bool :=
  match e with
  | Signal _ _ _ => false
  | _ => true
  end.

(** The outcome of running Python code that returns an [A] or raises. *)
Inductive result (A : Type) : Type :=
| Ok (a : A)
| Raise (e : exn).
Arguments Ok {A} a.
Arguments Raise {A} e.

(** [str(e)] *)
Definition exn_str (e : exn) : result string :=
  match e with
  | RecursionError => Ok "maximum recursion depth exceeded"
  | TypeError msg => Ok msg
  | UserError _ _ msg => Ok msg
  | MuteError _ _ failure => Raise failure
  | Signal _ _ msg => Ok msg
  end.

Definition bind {A B : Type} (r : result A) (k : A -> result B) : result B :=
  match r with
  | Ok a => k a
  | Raise e => Raise e
  end.

Notation "'do' x <- r ; k" := (bind r (fun x => k))
  (at level 10, x pattern, r at level 100, k at level 200).

(** A comprehension [[f(x) for x in xs]]: left to right, the first error
    ends it. *)
Fixpoint map_result {A B : Type} (f : A -> result B) (xs : list A) : result (list B) :=
  match xs with
  | [] => Ok []
  | x :: rest =>
      do y <- f x;
      do ys <- map_result f rest;
      Ok (y :: ys)
  end.

(** ** Python values *)

(** An address in the object store: the identity of a shared object. *)
Abbreviation addr := nat.

(** A class is known by its position in the class table. *)
Abbreviation cid := nat.

(** What [str(x)] and [repr(x)] give for an object whose class defines
    them itself. *)
Record text_forms : Type := TextForms {
  str_of : result string;
  repr_of : result string
}.

(** The four builtin containers [serialize_value] looks into: a set
    carries its elements in iteration order, a dict its items in
    insertion order. *)
Inductive container (A : Type) : Type :=
| CList (items : list A)
| CTuple (items : list A)
| CSet (items : list A)
| CDict (items : list (A * A)).
Arguments CList {A} items.
Arguments CTuple {A} items.
Arguments CSet {A} items.
Arguments CDict {A} items.

(** The values [serialize_value] tells apart, in the order of its
    [isinstance] tests.
    - a float is kept as its [repr], which determines it;
    - a pydantic model carries what its [model_dump()] returns;
    - [VCon] is a container given by its contents, [VRef] a container
      given by its address in the object store: this is how a list or a
      dict can contain itself, and a value that does not contain itself
      can always be written without it;
    - [VOther] is an object of any other class. *)
Inductive value : Type :=
| VNone
| VBool (b : bool)
| VInt (z : Z)
| VFloat (r : string)
| VStr (s : string)
| VModel (dump : result value) (txt : text_forms)
| VCon (c : container value)
| VRef (a : addr)
| VDatetime (txt : text_forms)
| VUUID (txt : text_forms)
| VOther (txt : text_forms).

Abbreviation VList items := (VCon (CList items)).
Abbreviation VTuple items := (VCon (CTuple items)).
Abbreviation VSet items := (VCon (CSet items)).
Abbreviation VDict items := (VCon (CDict items)).

(** A Python dict with string keys, in insertion order: the span
    attributes, the argument mapping and the dicts [serialize_value]
    builds. *)
Definition sdict := list (string * value).

(** [d[k] = v]: an existing key keeps its position and gets the new
    value, a new key goes last. *)
Fixpoint sdict_set (k : string) (v : value) (d : sdict) : sdict :=
  match d with
  | [] => [(k, v)]
  | (k', v') :: rest =>
      if String.eqb k k' then (k, v) :: rest
      else (k', v') :: sdict_set k v rest
  end.

(** [d.get(k)] *)
Fixpoint sdict_get (k : string) (d : sdict) : option value :=
  match d with
  | [] => None
  | (k', v') :: rest => if String.eqb k k' then Some v' else sdict_get k rest
  end.

Definition sdict_keys (d : sdict) : list string := map fst d.

(** The dict built by inserting [items] one after the other. *)
Definition sdict_of_items (items : list (string * value)) : sdict :=
  fold_left (fun d kv => sdict_set (fst kv) (snd kv) d) items [].

(** The value the last of the [items] with key [k] carries. *)
Fixpoint last_value (k : string) (items : list (string * value)) : option value :=
  match items with
  | [] => None
  | (k', v) :: rest =>
      match last_value k rest with
      | Some later => Some later
      | None => if String.eqb k k' then Some v else None
      end
  end.

(** The dict object for an [sdict]. *)
Definition VSDict (d : sdict) : value :=
  VDict (map (fun kv => (VStr (fst kv), snd kv)) d).

(** ** The builtins [str] and [repr] *)

(** [str(z)] for an int, [str(n)] for a natural number *)
Definition str_int (z : Z) : string := NilZero.string_of_int (Z.to_int z).
Definition str_nat (n : nat) : string := NilZero.string_of_uint (Nat.to_uint n).

Definition hex_digit (n : nat) : ascii :=
  nth n (list_ascii_of_string "0123456789abcdef") "0"%char.

Definition backslash : ascii := ascii_of_nat 92.
Definition single_quote : ascii := ascii_of_nat 39.
Definition double_quote : ascii := ascii_of_nat 34.

Definition text (cs : list ascii) : string := string_of_list_ascii cs.

(** [repr] of one character of a text delimited by [quote]: the quote
    and the backslash are escaped, and so is a character that is not
    printable.  Characters are code points below 256. *)
Definition repr_char (quote : ascii) (c : ascii) : string :=
  let n := nat_of_ascii c in
  if Ascii.eqb c quote then text [backslash; c]
  else if Ascii.eqb c backslash then text [backslash; backslash]
  else if Nat.eqb n 9 then text [backslash; "t"%char]
  else if Nat.eqb n 10 then text [backslash; "n"%char]
  else if Nat.eqb n 13 then text [backslash; "r"%char]
  else if (n <? 32) || ((126 <? n) && (n <? 161)) || Nat.eqb n 173
  then text [backslash; "x"%char; hex_digit (n / 16); hex_digit (n mod 16)]
  else text [c].

Fixpoint has_char (c : ascii) (s : string) : bool :=
  match s with
  | EmptyString => false
  | String c' rest => Ascii.eqb c c' || has_char c rest
  end.

(** [repr(s)] for text: single quotes, unless the text has a single
    quote and no double quote. *)
Definition repr_string (s : string) : string :=
  let quote :=
    if has_char single_quote s && negb (has_char double_quote s)
    then double_quote else single_quote in
  String quote
    (String.concat EmptyString (map (repr_char quote) (list_ascii_of_string s))
     +:+ text [quote]).

Section Interpreter.

(** The object store: the container each address holds. *)
Variable heap : addr -> container value.

(** The container a value is, given by its contents or by its address. *)
Definition container_of (v : value) : option (container value) :=
  match v with
  | VCon c => Some c
  | VRef a => Some (heap a)
  | _ => None
  end.

(** [repr] of the elements of a container, comma separated. *)
Definition join_reprs (parts : list string) : string := String.concat ", " parts.

Definition repr_tuple (parts : list string) : string :=
  match parts with
  | [p] => "(" +:+ p +:+ ",)"
  | _ => "(" +:+ join_reprs parts +:+ ")"
  end.

Definition repr_set (parts : list string) : string :=
  match parts with
  | [] => "set()"
  | _ => "{" +:+ join_reprs parts +:+ "}"
  end.

(** What [repr] prints for a container met again inside itself. *)
Definition repr_ellipsis (c : container value) : string :=
  match c with
  | CList _ => "[...]"
  | CTuple _ => "(...)"
  | CSet _ => "set(...)"
  | CDict _ => "{...}"
  end.

(** [repr(v)].  [depth] is how many nested calls the interpreter still
    allows: the call that finds none left raises [RecursionError].
    [active] holds the shared containers whose [repr] is under way. *)
Fixpoint py_repr (depth : nat) (active : list addr) (v : value) : result string :=
  match depth with
  | O => Raise RecursionError
  | S d =>
      let repr_container (active : list addr) (c : container value) :=
        match c with
        | CList items =>
            do parts <- map_result (py_repr d active) items;
            Ok ("[" +:+ join_reprs parts +:+ "]")
        | CTuple items =>
            do parts <- map_result (py_repr d active) items;
            Ok (repr_tuple parts)
        | CSet items =>
            do parts <- map_result (py_repr d active) items;
            Ok (repr_set parts)
        | CDict items =>
            do parts <- map_result
                          (fun kv =>
                             do k <- py_repr d active (fst kv);
                             do x <- py_repr d active (snd kv);
                             Ok (k +:+ ": " +:+ x))
                          items;
            Ok ("{" +:+ join_reprs parts +:+ "}")
        end in
      match v with
      | VNone => Ok "None"
      | VBool b => Ok (if b then "True" else "False")
      | VInt z => Ok (str_int z)
      | VFloat r => Ok r
      | VStr s => Ok (repr_string s)
      | VModel _ txt | VDatetime txt | VUUID txt | VOther txt => repr_of txt
      | VCon c => repr_container active c
      | VRef a =>
          if existsb (Nat.eqb a) active then Ok (repr_ellipsis (heap a))
          else repr_container (a :: active) (heap a)
      end
  end.

(** [str(v)]: the text itself for text, the object's own [__str__] where
    its class has one, [repr(v)] for the rest. *)
Definition py_str (depth : nat) (v : value) : result string :=
  match v with
  | VStr s => Ok s
  | VModel _ txt | VDatetime txt | VUUID txt | VOther txt => str_of txt
  | _ => py_repr depth [] v
  end.

(** ** [serialize_value] *)

(** [serialize_value(value)], called when the interpreter still allows
    [depth] nested calls.  The tests are the source's, in its order:
    [None]; [str], [int], [float], [bool]; [BaseModel]; [list], [tuple],
    [set]; [dict]; [datetime], [UUID]; anything else. *)
Fixpoint serialize_value (depth : nat) (v : value) : result value :=
  match depth with
  | O => Raise RecursionError
  | S d =>
      let serialize_container (c : container value) :=
        match c with
        | CList items | CTuple items | CSet items =>
            do out <- map_result (serialize_value d) items;
            Ok (VList out)
        | CDict items =>
            do out <- map_result
                        (fun kv =>
                           do k <- py_str d (fst kv);
                           do x <- serialize_value d (snd kv);
                           Ok (k, x))
                        items;
            Ok (VSDict (sdict_of_items out))
        end in
      match v with
      | VNone => Ok VNone
      | VStr _ | VInt _ | VFloat _ | VBool _ => Ok v
      | VModel dump _ => dump
      | VCon c => serialize_container c
      | VRef a => serialize_container (heap a)
      | VDatetime _ | VUUID _ => do s <- py_str d v; Ok (VStr s)
      | VOther _ => do s <- py_str d v; Ok (VStr s)
      end
  end.

(** One round of the dict comprehension of [serialize_value], called
    with [depth] nested calls left. *)
Definition dict_item (depth : nat) (kv : value * value) : result (string * value) :=
  do k <- py_str depth (fst kv);
  do x <- serialize_value depth (snd kv);
  Ok (k, x).

(** ** The tracing backend *)

(** Modelled from the spec: the tracing backend, [tracing.span], is
    imported from another module of the repository.  The spec gives it
    three operations: opening a scoped span with a name and an attribute
    mapping, setting an attribute on the open span, and leaving the
    scope, which finalizes the span and submits it.  A span is its name
    and its attributes; what reaches the backend is the list of the
    spans submitted, in order. *)
Record span : Type := Span {
  span_name : string;
  span_attributes : sdict
}.

Definition open_span (name : string) (attributes : sdict) : span :=
  {| span_name := name; span_attributes := attributes |}.

Definition set_attribute (key : string) (v : value) (sp : span) : span :=
  {| span_name := span_name sp;
     span_attributes := sdict_set key v (span_attributes sp) |}.

(** ** Functions and methods *)

(** The object a method is called on: [self.__class__.__name__] and the
    instance's own data. *)
Record receiver : Type := Receiver {
  recv_class : string;
  recv_state : value
}.

(** What an asynchronous generator object does when it is driven: it
    finishes, it raises, or it yields an item and waits.  [out] holds the
    spans it has submitted since it was last resumed.  A generator that
    waits at a [yield] is either resumed ([resume]) or closed by its
    consumer, and then submits [closing]. *)
Inductive gen : Type :=
| GDone (out : list span)
| GRaise (out : list span) (e : exn)
| GYield (out : list span) (item : value) (resume : gen) (closing : list span).

(** A call [f(self, *args, **kwargs)] *)
Definition call (A : Type) : Type := receiver -> list value -> sdict -> A.

(** The three calling conventions [trace_method] tells apart with
    [inspect.isasyncgenfunction] and [asyncio.iscoroutinefunction].  An
    ordinary or awaited call gives its outcome and the spans submitted
    while it ran. *)
Inductive body : Type :=
| SyncBody (run : call (result value * list span))
| AsyncBody (run : call (result value * list span))
| AsyncGenBody (run : call gen).

(** A function object: [__name__], the parameter names of
    [inspect.signature], its code, and [__wrapped__], which
    [functools.wraps] sets on a wrapper. *)
Inductive pyfunction : Type := Function {
  fn_name : string;
  fn_params : list string;
  fn_body : body;
  fn_wrapped : option pyfunction
}.

Definition is_async_gen (method : pyfunction) : bool :=
  match fn_body method with AsyncGenBody _ => true | _ => false end.

Definition is_async (method : pyfunction) : bool :=
  match fn_body method with AsyncBody _ => true | _ => false end.

(** ** [trace_method] *)

(** How many nested calls the interpreter still allows when a wrapper
    calls [serialize_value] or [str]. *)
Variable limit : nat.

Definition span_type (method : pyfunction) : string :=
  if is_async_gen method then "async_generator"
  else if is_async method then "async" else "sync".

(** [param_names[i] if i < len(param_names) else f"position_{i+1}"] *)
Definition param_name (param_names : list string) (i : nat) : string :=
  match nth_error param_names i with
  | Some name => name
  | None => "position_" +:+ str_nat (i + 1)
  end.

(** [for i, arg in enumerate(args): combined_args[...] = serialize_value(arg)] *)
Fixpoint add_positional (param_names : list string) (i : nat) (args : list value)
    (combined_args : sdict) : result sdict :=
  match args with
  | [] => Ok combined_args
  | arg :: rest =>
      do out <- serialize_value limit arg;
      add_positional param_names (S i) rest
        (sdict_set (param_name param_names i) out combined_args)
  end.

(** [for k, v in kwargs.items(): combined_args[str(k)] = serialize_value(v)];
    a keyword is text, and [str] of text is the text. *)
Fixpoint add_keywords (kwargs : sdict) (combined_args : sdict) : result sdict :=
  match kwargs with
  | [] => Ok combined_args
  | (k, v) :: rest =>
      do out <- serialize_value limit v;
      add_keywords rest (sdict_set k out combined_args)
  end.

(** The argument mapping of a call. *)
Definition combine_args (method : pyfunction) (args : list value) (kwargs : sdict)
    : result sdict :=
  let param_names := tail (fn_params method) in
  do combined_args <- add_positional param_names 0 args [];
  add_keywords kwargs combined_args.

Definition create_span_context (method : pyfunction) (self : receiver)
    (args : list value) (kwargs : sdict) : result (string * string * sdict) :=
  let class_name := recv_class self in
  let method_name := fn_name method in
  do combined_args <- combine_args method args kwargs;
  do args_text <- py_str limit (VSDict combined_args);
  Ok (class_name, method_name,
      [("__autotraced__", VBool true);
       ("__class__", VStr class_name);
       ("__method__", VStr method_name);
       ("__type__", VStr (span_type method));
       ("__args__", VStr args_text)]).

(** The loop of [async_gen_wrapper] inside the span scope: every item of
    the underlying generator is yielded, and counted once the consumer
    has resumed the wrapper; on every way out the [finally] clause sets
    [chunk_count] and the scope submits the span.  The wrapper does not
    close the underlying generator: when the wrapper is closed at its
    [yield], what the underlying generator would submit on being closed
    is not part of what the wrapper does. *)
Fixpoint async_gen_loop (sp : span) (count : nat) (inner : gen) : gen :=
  let finished := set_attribute "chunk_count" (VInt (Z.of_nat count)) sp in
  match inner with
  | GDone out => GDone (out ++ [finished])
  | GRaise out e => GRaise (out ++ [finished]) e
  | GYield out item resume _ =>
      GYield out item (async_gen_loop sp (S count) resume) [finished]
  end.

Definition async_gen_wrapper (method : pyfunction) (run : call gen) : call gen :=
  fun self args kwargs =>
    match create_span_context method self args kwargs with
    | Raise e => GRaise [] e
    | Ok (class_name, method_name, span_attributes) =>
        let sp := open_span (class_name +:+ "." +:+ method_name) span_attributes in
        async_gen_loop sp 0 (run self args kwargs)
    end.

(** [async_wrapper]: [except Exception as e] catches the errors of the
    method and of [serialize_value] that are instances of [Exception];
    it sets [error] to [str(e)] and raises [e] again.  When [str(e)]
    itself raises, that error leaves the handler and the scope instead,
    with no [error] set.  An error that is not an instance of
    [Exception] passes through the scope untouched. *)
Definition async_wrapper (method : pyfunction) (run : call (result value * list span))
    : call (result value * list span) :=
  fun self args kwargs =>
    match create_span_context method self args kwargs with
    | Raise e => (Raise e, [])
    | Ok (class_name, method_name, span_attributes) =>
        let sp := open_span (class_name +:+ "." +:+ method_name) span_attributes in
        let (outcome, out) := run self args kwargs in
        let failed (e : exn) :=
          if is_exception e then
            match exn_str e with
            | Ok text => (Raise e, out ++ [set_attribute "error" (VStr text) sp])
            | Raise e' => (Raise e', out ++ [sp])
            end
          else (Raise e, out ++ [sp]) in
        match outcome with
        | Ok r =>
            match serialize_value limit r with
            | Ok serialized => (Ok r, out ++ [set_attribute "output" serialized sp])
            | Raise e => failed e
            end
        | Raise e => failed e
        end
    end.

(** [sync_wrapper]: the handler only raises the error again, so every
    error leaves the scope as it is. *)
Definition sync_wrapper (method : pyfunction) (run : call (result value * list span))
    : call (result value * list span) :=
  fun self args kwargs =>
    match create_span_context method self args kwargs with
    | Raise e => (Raise e, [])
    | Ok (class_name, method_name, span_attributes) =>
        let sp := open_span (class_name +:+ "." +:+ method_name) span_attributes in
        let (outcome, out) := run self args kwargs in
        let failed (e : exn) := (Raise e, out ++ [sp]) in
        match outcome with
        | Ok r =>
            match serialize_value limit r with
            | Ok serialized => (Ok r, out ++ [set_attribute "output" serialized sp])
            | Raise e => failed e
            end
        | Raise e => failed e
        end
    end.

(** [trace_method(method)]: the wrapper for the method's calling
    convention; [functools.wraps] gives it the method's name and
    signature and records the method as [__wrapped__]. *)
Definition trace_method (method : pyfunction) : pyfunction :=
  {| fn_name := fn_name method;
     fn_params := fn_params method;
     fn_body :=
       match fn_body method with
       | AsyncGenBody run => AsyncGenBody (async_gen_wrapper method run)
       | AsyncBody run => AsyncBody (async_wrapper method run)
       | SyncBody run => SyncBody (sync_wrapper method run)
       end;
     fn_wrapped := Some method |}.

(** ** Classes and [trace_protocol] *)

(** What a class namespace holds under a name: a plain function (the
    only thing [inspect.isfunction] accepts), a [staticmethod] or
    [classmethod] object, or any other value. *)
Inductive attr : Type :=
| AFunction (f : pyfunction)
| AStaticMethod (f : pyfunction)
| AClassMethod (f : pyfunction)
| AValue (v : value).

(** An [__init_subclass__] hook: the one of [object], which does
    nothing; one written by the user, which does not call the next hook
    and of which only the calls are recorded; the closure
    [trace_protocol] installs, which holds
    [original_init_subclass], the hook [getattr(cls, ...)] found, bound
    to the decorated class [cls]. *)
Inductive hook : Type :=
| HObject
| HUser (tag : string)
| HTrace (original : hook) (bound : cid).

(** A class: [__name__], [__mro__] (the class itself first, [object]
    left out), its own namespace [vars(cls)], and its own
    [__init_subclass__], kept apart from the namespace. *)
Record pyclass : Type := PyClass {
  cls_name : string;
  cls_mro : list cid;
  cls_dict : gmap string attr;
  cls_hook : option hook
}.

(** The class table, and the calls made to user hooks: the tag of the
    hook and the class it was called with. *)
Record world : Type := World {
  classes : list pyclass;
  hook_calls : list (string * cid)
}.

(** The first [__init_subclass__] along an MRO. *)
Fixpoint find_hook (table : list pyclass) (mro : list cid) : hook :=
  match mro with
  | [] => HObject
  | c :: rest =>
      match table !! c with
      | Some (PyClass _ _ _ (Some h)) => h
      | _ => find_hook table rest
      end
  end.

(** [getattr(cls, name)]: the first namespace along the MRO that has the
    name. *)
Fixpoint lookup_mro (table : list pyclass) (mro : list cid) (name : string)
    : option attr :=
  match mro with
  | [] => None
  | c :: rest =>
      match table !! c with
      | Some k =>
          match cls_dict k !! name with
          | Some a => Some a
          | None => lookup_mro table rest name
          end
      | None => lookup_mro table rest name
      end
  end.

Definition class_getattr (w : world) (cls : cid) (name : string) : option attr :=
  match classes w !! cls with
  | Some k => lookup_mro (classes w) (cls_mro k) name
  | None => None
  end.

(** [vars(cls)] *)
Definition class_vars (w : world) (cls : cid) : gmap string attr :=
  match classes w !! cls with
  | Some k => cls_dict k
  | None => ∅
  end.

(** One round of the loop of [__init_subclass__]: the attribute is
    replaced when it is a function whose name has no leading
    underscore. *)
Definition trace_attr (name : string) (a : attr) : attr :=
  match a with
  | AFunction method =>
      if negb (String.prefix "_" name) then AFunction (trace_method method) else a
  | _ => a
  end.

(** [for name, method in vars(cls_child).items(): ... setattr(...)]: each
    round writes under the name it reads, so the loop is a map over the
    namespace. *)
Definition trace_class (cls_child : cid) (w : world) : world :=
  match classes w !! cls_child with
  | Some k =>
      {| classes :=
           <[cls_child :=
               {| cls_name := cls_name k;
                  cls_mro := cls_mro k;
                  cls_dict := map_imap (fun name a => Some (trace_attr name a)) (cls_dict k);
                  cls_hook := cls_hook k |}]> (classes w);
         hook_calls := hook_calls w |}
  | None => w
  end.

(** Calling a hook with a class.  For the closure of [trace_protocol]
    this is the body of [__init_subclass__(cls_child)]: it calls
    [original_init_subclass()], which is bound to the decorated class,
    and then wraps the functions in [vars(cls_child)]. *)
Fixpoint run_hook (h : hook) (cls_child : cid) (w : world) : world :=
  match h with
  | HObject => w
  | HUser tag =>
      {| classes := classes w; hook_calls := hook_calls w ++ [(tag, cls_child)] |}
  | HTrace original bound => trace_class cls_child (run_hook original bound w)
  end.

(** [trace_protocol(cls)]: reads [cls.__init_subclass__], sets the new
    hook, returns [cls]. *)
Definition trace_protocol (cls : cid) (w : world) : cid * world :=
  match classes w !! cls with
  | Some k =>
      let original_init_subclass := find_hook (classes w) (cls_mro k) in
      (cls,
       {| classes :=
            <[cls :=
                {| cls_name := cls_name k;
                   cls_mro := cls_mro k;
                   cls_dict := cls_dict k;
                   cls_hook := Some (HTrace original_init_subclass cls) |}]> (classes w);
          hook_calls := hook_calls w |})
  | None => (cls, w)
  end.

(** A class statement [class name(base): namespace] with no keyword
    arguments.  [own_hook] is the [__init_subclass__] the body declares,
    if it declares one: a hook written by the user, known by its tag.
    The interpreter builds the class and calls, with the new class, the
    first [__init_subclass__] along the MRO after the class itself: the
    hook the class declares is for its subclasses, not for itself. *)
Definition define_class (name : string) (base : option cid)
    (namespace : gmap string attr) (own_hook : option string) (w : world)
    : cid * world :=
  let cls_child := length (classes w) in
  let parents :=
    match base with
    | Some b => match classes w !! b with Some k => cls_mro k | None => [] end
    | None => []
    end in
  let w1 :=
    {| classes :=
         classes w ++
         [{| cls_name := name; cls_mro := cls_child :: parents;
             cls_dict := namespace; cls_hook := HUser <$> own_hook |}];
       hook_calls := hook_calls w |} in
  (cls_child, run_hook (find_hook (classes w) parents) cls_child w1).

End Interpreter.

(** The entries the first loop of [create_span_context] writes for the
    positional arguments, given their serialized values: the value at
    position [i] goes under [param_name param_names i]. *)
Definition positional_entries (param_names : list string) (first : nat)
    (outs : list value) : list (string * value) :=
  combine (map (param_name param_names) (seq first (length outs))) outs.

(** The entries the second loop writes for the keyword arguments. *)
Definition keyword_entries (kwargs : sdict) (outs : list value) : list (string * value) :=
  combine (map fst kwargs) outs.

(** ** Driving an asynchronous generator *)

(** A generator object between two requests of its consumer: not yet
    started, waiting at a [yield], or over. *)
Inductive gen_state : Type :=
| Fresh (g : gen)
| Waiting (resume : gen) (closing : list span)
| Over.

(** What [__anext__] gives the consumer. *)
Inductive step : Type :=
| Item (v : value)
| Stop
| Failed (e : exn).

Definition advance (g : gen) : step * list span * gen_state :=
  match g with
  | GDone out => (Stop, out, Over)
  | GRaise out e => (Failed e, out, Over)
  | GYield out item resume closing => (Item item, out, Waiting resume closing)
  end.

(** [await g.__anext__()] *)
Definition anext (st : gen_state) : step * list span * gen_state :=
  match st with
  | Fresh g => advance g
  | Waiting resume _ => advance resume
  | Over => (Stop, [], Over)
  end.

(** [await g.aclose()]: a generator that has not started runs none of
    its code; one waiting at a [yield] leaves through its [finally]
    clauses and scopes. *)
Definition aclose (st : gen_state) : list span * gen_state :=
  match st with
  | Fresh _ => ([], Over)
  | Waiting _ closing => (closing, Over)
  | Over => ([], Over)
  end.

(** The consumer asks for [k] items, one after the other, and stops
    asking as soon as the generator is over: the items received, the
    spans submitted meanwhile and the state the generator is left in. *)
Fixpoint take (k : nat) (st : gen_state) : list value * list span * gen_state :=
  match k with
  | O => ([], [], st)
  | S k' =>
      match anext st with
      | (Item v, out, st') =>
          let '(items, out', st'') := take k' st' in
          (v :: items, out ++ out', st'')
      | (_, out, st') => ([], out, st')
      end
  end.

(** The consumer takes [k] items and then closes the generator. *)
Definition take_then_close (k : nat) (g : gen) : list value * list span * gen_state :=
  let '(items, out, st) := take k (Fresh g) in
  let (closing, st') := aclose st in
  (items, out ++ closing, st').

(** A generator driven until it is over: the items it yields, how it
    ends, the spans it submits. *)
Fixpoint gen_items (g : gen) : list value :=
  match g with
  | GDone _ | GRaise _ _ => []
  | GYield _ item resume _ => item :: gen_items resume
  end.

Fixpoint gen_ending (g : gen) : result unit :=
  match g with
  | GDone _ => Ok tt
  | GRaise _ e => Raise e
  | GYield _ _ resume _ => gen_ending resume
  end.

Fixpoint gen_spans (g : gen) : list span :=
  match g with
  | GDone out | GRaise out _ => out
  | GYield out _ resume _ => out ++ gen_spans resume
  end.

(** ** Shapes of values *)

Definition is_ok {A : Type} (r : result A) : bool :=
  match r with Ok _ => true | Raise _ => false end.


(** How deep a value is nested: 1 for a value with nothing inside, one
    more than its deepest key or element for a container given by its
    contents. *)
Fixpoint height (v : value) : nat :=
  match v with
  | VCon (CList items) | VCon (CTuple items) | VCon (CSet items) =>
      S (list_max (map height items))
  | VCon (CDict items) =>
      S (list_max (map (fun kv => Nat.max (height (fst kv)) (height (snd kv))) items))
  | _ => 1
  end.

(** [repr(v)] meets no container of the store, and every [__repr__] it
    calls returns. *)
Fixpoint printable (v : value) : bool :=
  match v with
  | VModel _ txt | VDatetime txt | VUUID txt | VOther txt => is_ok (repr_of txt)
  | VRef _ => false
  | VCon (CList items) | VCon (CTuple items) | VCon (CSet items) =>
      forallb printable items
  | VCon (CDict items) =>
      forallb (fun kv => printable (fst kv) && printable (snd kv)) items
  | _ => true
  end.

(** The same for [str(v)]. *)
Definition stringable (v : value) : bool :=
  match v with
  | VStr _ => true
  | VModel _ txt | VDatetime txt | VUUID txt | VOther txt => is_ok (str_of txt)
  | _ => printable v
  end.

(** [serialize_value(v)] meets no container of the store (so [v] does
    not contain itself), and every [model_dump()] and [str()] it calls
    returns. *)
Fixpoint tame (v : value) : bool :=
  match v with
  | VModel dump _ => is_ok dump
  | VDatetime txt | VUUID txt | VOther txt => is_ok (str_of txt)
  | VRef _ => false
  | VCon (CList items) | VCon (CTuple items) | VCon (CSet items) =>
      forallb tame items
  | VCon (CDict items) =>
      forallb (fun kv => stringable (fst kv) && tame (snd kv)) items
  | _ => true
  end.


(** The elements of a list, a tuple or a set. *)
Definition sequence_items (c : container value) : option (list value) :=
  match c with
  | CList items | CTuple items | CSet items => Some items
  | CDict _ => None
  end.

(** No text occurs twice. *)
Fixpoint distinct (ks : list string) : bool :=
  match ks with
  | [] => true
  | k :: rest => negb (existsb (String.eqb k) rest) && distinct rest
  end.

(** The text of a key that is text. *)
Definition key_text (kv : value * value) : string :=
  match fst kv with
  | VStr s => s
  | _ => EmptyString
  end.

(** A JSON value as Python holds it: the keys of each dict are text and
    differ from one another. *)
Fixpoint canonical (v : value) : bool :=
  match v with
  | VNone | VBool _ | VInt _ | VFloat _ | VStr _ => true
  | VCon (CList items) => forallb canonical items
  | VCon (CDict items) =>
      forallb (fun kv => match fst kv with VStr _ => canonical (snd kv) | _ => false end)
              items
      && distinct (map key_text items)
  | _ => false
  end.

(** Every [model_dump()] that [serialize_value(v)] returns is such a
    value. *)
Fixpoint canonical_dumps (v : value) : bool :=
  match v with
  | VModel (Ok dump) _ => canonical dump
  | VCon (CList items) | VCon (CTuple items) | VCon (CSet items) =>
      forallb canonical_dumps items
  | VCon (CDict items) => forallb (fun kv => canonical_dumps (snd kv)) items
  | _ => true
  end.

(** ** Well-formed class tables *)

(** Name, MRO and hook of a class: what a class statement and
    [setattr] on a method leave alone. *)
Definition class_shape (k : pyclass) : string * list cid * option hook :=
  (cls_name k, cls_mro k, cls_hook k).

(** Every class a hook is bound to is among the first [n] classes. *)
Fixpoint hook_bounded (n : nat) (h : hook) : bool :=
  match h with
  | HObject | HUser _ => true
  | HTrace original bound => (bound <? n) && hook_bounded n original
  end.

Definition is_trace_hook (h : hook) : bool :=
  match h with HTrace _ _ => true | _ => false end.

(** The classes from position [i] on: the MRO of each starts with the
    class itself, and its hook is bound to classes of the table. *)
Fixpoint classes_ok (n i : nat) (ks : list pyclass) : bool :=
  match ks with
  | [] => true
  | k :: rest =>
      match cls_mro k with
      | c :: _ => Nat.eqb c i
      | [] => false
      end
      && match cls_hook k with
         | Some h => hook_bounded n h
         | None => true
         end
      && classes_ok n (S i) rest
  end.

Definition world_ok (w : world) : bool :=
  classes_ok (length (classes w)) 0 (classes w).

(** ** Programs used as examples *)

(** The store after [l = []; l.append(l)], with [l] at address 0. *)
Definition loop_heap : addr -> container value := fun _ => CList [VRef 0].


(** A store in which every address holds an empty list. *)
Definition flat_heap : addr -> container value := fun _ => CList [].

(** [sys.getrecursionlimit()] as the interpreter starts. *)
Definition default_limit : nat := 1000.

Definition boom : exn := UserError 1 "ValueError" "boom".

(** An object whose [__str__] and [__repr__] raise. *)
Definition unprintable : value := VOther (TextForms (Raise boom) (Raise boom)).

(** An object with a [__str__] and a [__repr__] of its own. *)
Definition handle : value :=
  VOther (TextForms (Ok "handle 7") (Ok "<Handle 7>")).



(** [{1: [None, handle], "1": (2.5,), None: set()}] *)
Definition sample_dict : value :=
  VDict [(VInt 1, VList [VNone; handle]);
         (VStr "1", VTuple [VFloat "2.5"]);
         (VNone, VSet [])].

(** The argument a call binds to its [i]-th parameter after [self]. *)
Definition argument (i : nat) (name : string) (args : list value) (kwargs : sdict)
    : option value :=
  match nth_error args i with
  | Some v => Some v
  | None => sdict_get name kwargs
  end.

(** [def add(self, a, b): return a + b], for integers. *)
Definition add_run : call (result value * list span) :=
  fun _ args kwargs =>
    match argument 0 "a" args kwargs, argument 1 "b" args kwargs with
    | Some (VInt a), Some (VInt b) => (Ok (VInt (a + b)), [])
    | _, _ => (Raise (TypeError "unsupported operand type(s) for +"), [])
    end.

Definition add : pyfunction :=
  {| fn_name := "add"; fn_params := ["self"; "a"; "b"];
     fn_body := SyncBody add_run; fn_wrapped := None |}.

(** An instance of a class named [X]. *)
Definition an_X : receiver := {| recv_class := "X"; recv_state := VNone |}.

(** [def me(self): return l], with [l] the list at address 0. *)
Definition me_run : call (result value * list span) :=
  fun _ _ _ => (Ok (VRef 0), []).

Definition me : pyfunction :=
  {| fn_name := "me"; fn_params := ["self"];
     fn_body := SyncBody me_run; fn_wrapped := None |}.

Definition not_found : exn := UserError 2 "NotFound" "not found".

(** [def find(self, key): raise NotFound("not found")], as a function,
    as a coroutine function and as an asynchronous generator that fails
    after one item. *)
Definition find_run : call (result value * list span) :=
  fun _ _ _ => (Raise not_found, []).

Definition find_stream : call gen :=
  fun _ _ _ => GYield [] (VStr "first") (GRaise [] not_found) [].

Definition find : pyfunction :=
  {| fn_name := "find"; fn_params := ["self"; "key"];
     fn_body := AsyncBody find_run; fn_wrapped := None |}.

(** [asyncio.CancelledError()], raised in a coroutine that is cancelled. *)
Definition cancelled : exn := Signal 3 "CancelledError" EmptyString.

(** An error whose [__str__] raises [boom]. *)
Definition mute : exn := MuteError 4 "Mute" boom.

(** [async def wait(self): await ...], cancelled while it waits. *)
Definition wait_run : call (result value * list span) :=
  fun _ _ _ => (Raise cancelled, []).

Definition wait : pyfunction :=
  {| fn_name := "wait"; fn_params := ["self"];
     fn_body := AsyncBody wait_run; fn_wrapped := None |}.

(** [async def mumble(self): raise Mute()] *)
Definition mumble_run : call (result value * list span) :=
  fun _ _ _ => (Raise mute, []).

Definition mumble : pyfunction :=
  {| fn_name := "mumble"; fn_params := ["self"];
     fn_body := AsyncBody mumble_run; fn_wrapped := None |}.

(** The generator that yields [items] and returns. *)
Fixpoint gen_of_items (items : list value) : gen :=
  match items with
  | [] => GDone []
  | item :: rest => GYield [] item (gen_of_items rest) []
  end.

(** [async def stream(self): yield "a"; yield "b"; yield "c"] *)
Definition stream_run : call gen :=
  fun _ _ _ => gen_of_items [VStr "a"; VStr "b"; VStr "c"].

Definition stream : pyfunction :=
  {| fn_name := "stream"; fn_params := ["self"];
     fn_body := AsyncGenBody stream_run; fn_wrapped := None |}.

(** [def ping(self): return "pong"] *)
Definition ping_run : call (result value * list span) :=
  fun _ _ _ => (Ok (VStr "pong"), []).

Definition ping : pyfunction :=
  {| fn_name := "ping"; fn_params := ["self"];
     fn_body := SyncBody ping_run; fn_wrapped := None |}.

Definition helper : pyfunction :=
  {| fn_name := "_helper"; fn_params := ["self"];
     fn_body := SyncBody ping_run; fn_wrapped := None |}.

(** [class A: def ping(self): ...], the only class so far. *)
Definition base_world : world :=
  {| classes :=
       [{| cls_name := "A"; cls_mro := [0];
           cls_dict := <["ping" := AFunction ping]> ∅; cls_hook := None |}];
     hook_calls := [] |}.

(** The body of [class B(A)]: a method, a private method, a static
    method and a constant. *)
Definition body_B : gmap string attr :=
  <["add" := AFunction add]>
    (<["_helper" := AFunction helper]>
       (<["make" := AStaticMethod ping]>
          (<["VERSION" := AValue (VInt 3)]> ∅))).

(** The body of [class C(B)]. *)
Definition body_C : gmap string attr :=
  <["stream" := AFunction stream]> ∅.

(** [A] decorated, then [class B(A)] and [class C(B)]. *)
Definition world_A : world := snd (trace_protocol 0 base_world).

Definition world_B : world :=
  snd (define_class flat_heap default_limit "B" (Some 0) body_B None world_A).

Definition world_C : world :=
  snd (define_class flat_heap default_limit "C" (Some 1) body_C None world_B).

(** [B], a subclass of the decorated [A], decorated in its turn before
    [class C(B)]. *)
Definition world_B_decorated : world := snd (trace_protocol 1 world_B).

Definition world_C_under_B : world :=
  snd (define_class flat_heap default_limit "C" (Some 1) body_C None world_B_decorated).

(** [class B(A)] with an [__init_subclass__] of its own, under the
    decorated [A], and then [class C(B)]. *)
Definition world_B_hooked : world :=
  snd (define_class flat_heap default_limit "B" (Some 0) body_B (Some "mine") world_A).

Definition world_C_under_hooked : world :=
  snd (define_class flat_heap default_limit "C" (Some 1) body_C None world_B_hooked).



(** [class R] with an [__init_subclass__] of its own that registers each
    subclass. *)
Definition hooked_world : world :=
  {| classes :=
       [{| cls_name := "R"; cls_mro := [0];
           cls_dict := <["ping" := AFunction ping]> ∅;
           cls_hook := Some (HUser "register") |}];
     hook_calls := [] |}.

(** [(1, handle)] and [[1, unprintable, 2]] *)
Definition pair_value : value := VTuple [VInt 1; handle].

Definition spoiled_list : value := VList [VInt 1; unprintable; VInt 2].

(** [{"a": [1, None], "b": "x"}] *)
Definition plain_json : value :=
  VSDict [("a", VList [VInt 1; VNone]); ("b", VStr "x")].

(** * Properties *)

(** ** Results and comprehensions *)

Lemma map_result_Forall2 {A B : Type} (f : A -> result B) (xs : list A) (ys : list B) :
  Forall2 (fun x y => f x = Ok y) xs ys -> map_result f xs = Ok ys.
Proof.
  induction 1 as [|x y xs ys Hxy _ IH]; simpl.
  - reflexivity.
  - rewrite Hxy. simpl. rewrite IH. reflexivity.
Qed.

Lemma map_result_Ok_Forall2 {A B : Type} (f : A -> result B) (xs : list A) (ys : list B) :
  map_result f xs = Ok ys -> Forall2 (fun x y => f x = Ok y) xs ys.
Proof.
  revert ys. induction xs as [|x xs IH]; simpl; intros ys H.
  - inversion H. constructor.
  - destruct (f x) as [y|e] eqn:Hx; simpl in H; [|discriminate].
    destruct (map_result f xs) as [ys'|e] eqn:Hxs; simpl in H; [|discriminate].
    inversion H; subst. constructor; auto.
Qed.


(** ** Dicts with text keys *)

Lemma sdict_get_set_eq k v d : sdict_get k (sdict_set k v d) = Some v.
Proof.
  induction d as [|[k' v'] d IH]; simpl.
  - rewrite String.eqb_refl. reflexivity.
  - destruct (String.eqb k k') eqn:E; simpl.
    + rewrite String.eqb_refl. reflexivity.
    + rewrite E. exact IH.
Qed.

Lemma sdict_get_set_ne k k' v d :
  k <> k' -> sdict_get k' (sdict_set k v d) = sdict_get k' d.
Proof.
  intros Hne. induction d as [|[k0 v0] d IH]; simpl.
  - apply not_eq_sym in Hne. apply String.eqb_neq in Hne. rewrite Hne. reflexivity.
  - destruct (String.eqb k k0) eqn:E; simpl.
    + apply String.eqb_eq in E. subst k0.
      apply not_eq_sym in Hne. apply String.eqb_neq in Hne. rewrite Hne. reflexivity.
    + destruct (String.eqb k' k0); [reflexivity | exact IH].
Qed.

Lemma sdict_keys_set k v d k' :
  k' ∈ sdict_keys (sdict_set k v d) <-> k' = k \/ k' ∈ sdict_keys d.
Proof.
  unfold sdict_keys. induction d as [|[k0 v0] d IH]; simpl.
  - rewrite elem_of_cons, elem_of_nil. tauto.
  - destruct (String.eqb k k0) eqn:E; simpl.
    + apply String.eqb_eq in E. subst k0. rewrite !elem_of_cons. tauto.
    + rewrite !elem_of_cons, IH. tauto.
Qed.

Lemma sdict_keys_set_NoDup k v d :
  NoDup (sdict_keys d) -> NoDup (sdict_keys (sdict_set k v d)).
Proof.
  unfold sdict_keys. induction d as [|[k0 v0] d IH]; simpl; intros Hnd.
  - apply NoDup_singleton.
  - apply NoDup_cons in Hnd. destruct Hnd as [Hnotin Hnd].
    destruct (String.eqb k k0) eqn:E; simpl.
    + apply String.eqb_eq in E. subst k0. apply NoDup_cons. split; assumption.
    + apply NoDup_cons. split; [|apply IH; exact Hnd].
      intros Hin. apply (sdict_keys_set k v d k0) in Hin.
      destruct Hin as [Heq | Hin]; [|contradiction].
      subst k0. rewrite String.eqb_refl in E. discriminate.
Qed.

Lemma sdict_values_set (P : value -> Prop) k v d :
  P v -> Forall P (map snd d) -> Forall P (map snd (sdict_set k v d)).
Proof.
  intros Hv. induction d as [|[k0 v0] d IH]; simpl; intros Hd.
  - constructor; [exact Hv | constructor].
  - inversion Hd; subst.
    destruct (String.eqb k k0); simpl; constructor; auto.
Qed.

(** Inserting [items] into a dict [d], one after the other. *)
Lemma sdict_fold_get items : forall d k,
  sdict_get k (fold_left (fun d kv => sdict_set (fst kv) (snd kv) d) items d) =
  match last_value k items with
  | Some v => Some v
  | None => sdict_get k d
  end.
Proof.
  induction items as [|[k0 v0] items IH]; intros d k; simpl.
  - reflexivity.
  - rewrite IH. destruct (last_value k items); [reflexivity|].
    destruct (String.eqb k k0) eqn:E.
    + apply String.eqb_eq in E. subst k0. apply sdict_get_set_eq.
    + apply sdict_get_set_ne. intros Heq. subst k0.
      rewrite String.eqb_refl in E. discriminate.
Qed.


Lemma sdict_fold_NoDup items : forall d,
  NoDup (sdict_keys d) ->
  NoDup (sdict_keys (fold_left (fun d kv => sdict_set (fst kv) (snd kv) d) items d)).
Proof.
  induction items as [|[k0 v0] items IH]; intros d Hd; simpl.
  - exact Hd.
  - apply IH. apply sdict_keys_set_NoDup. exact Hd.
Qed.

Lemma sdict_fold_values (P : value -> Prop) items : forall d,
  Forall P (map snd items) -> Forall P (map snd d) ->
  Forall P (map snd (fold_left (fun d kv => sdict_set (fst kv) (snd kv) d) items d)).
Proof.
  induction items as [|[k0 v0] items IH]; intros d Hitems Hd; simpl.
  - exact Hd.
  - inversion Hitems; subst. apply IH; [assumption|].
    apply sdict_values_set; assumption.
Qed.

Lemma sdict_of_items_get items k :
  sdict_get k (sdict_of_items items) = last_value k items.
Proof.
  unfold sdict_of_items. rewrite sdict_fold_get.
  destruct (last_value k items); reflexivity.
Qed.


Lemma sdict_of_items_NoDup items : NoDup (sdict_keys (sdict_of_items items)).
Proof. unfold sdict_of_items. apply sdict_fold_NoDup. apply NoDup_nil_2. Qed.




(** ** [serialize_value] on a mapping *)

Section Serializer.

Variable heap : addr -> container value.

Lemma dict_item_Ok depth kv s x :
  dict_item heap depth kv = Ok (s, x) <->
  py_str heap depth (fst kv) = Ok s /\ serialize_value heap depth (snd kv) = Ok x.
Proof.
  unfold dict_item.
  destruct (py_str heap depth (fst kv)) as [k|e]; simpl.
  - destruct (serialize_value heap depth (snd kv)) as [y|e]; simpl.
    + split.
      * intros H. inversion H. auto.
      * intros [H1 H2]. inversion H1. inversion H2. reflexivity.
    + split; [discriminate | intros [_ H]; discriminate].
  - split; [discriminate | intros [H _]; discriminate].
Qed.



(** *** Values that do not contain themselves *)

Lemma height_items_le (f : value -> nat) (items : list value) (n : nat) (x : value) :
  list_max (map f items) <= n -> In x items -> f x <= n.
Proof.
  intros Hmax Hin. apply list_max_le in Hmax.
  rewrite List.Forall_forall in Hmax. apply Hmax. apply in_map. exact Hin.
Qed.

Lemma height_pairs_le (items : list (value * value)) (n : nat) (kv : value * value) :
  list_max (map (fun kv => Nat.max (height (fst kv)) (height (snd kv))) items) <= n ->
  In kv items -> height (fst kv) <= n /\ height (snd kv) <= n.
Proof.
  intros Hmax Hin. apply list_max_le in Hmax.
  rewrite List.Forall_forall in Hmax.
  specialize (Hmax _ (in_map (fun kv => Nat.max (height (fst kv)) (height (snd kv))) _ _ Hin)).
  simpl in Hmax. lia.
Qed.






End Serializer.


(** A list that contains itself exhausts any recursion depth. *)
Lemma serialize_value_loop depth :
  serialize_value loop_heap depth (VRef 0) = Raise RecursionError.
Proof.
  induction depth as [|d IH]; simpl.
  - reflexivity.
  - rewrite IH. reflexivity.
Qed.


(** ** The wrappers *)

Section Wrappers.

Variable heap : addr -> container value.
Variable limit : nat.

(** What [create_span_context] returns when it returns. *)
Lemma create_span_context_Ok method self args kwargs class_name method_name attributes :
  create_span_context heap limit method self args kwargs
    = Ok (class_name, method_name, attributes) ->
  class_name = recv_class self /\ method_name = fn_name method /\
  exists combined_args args_text,
    combine_args heap limit method args kwargs = Ok combined_args /\
    py_str heap limit (VSDict combined_args) = Ok args_text /\
    attributes = [("__autotraced__", VBool true);
                  ("__class__", VStr class_name);
                  ("__method__", VStr method_name);
                  ("__type__", VStr (span_type method));
                  ("__args__", VStr args_text)].
Proof.
  unfold create_span_context. intros H.
  destruct (combine_args heap limit method args kwargs) as [combined|e] eqn:Hc;
    cbn [bind] in H; [|discriminate].
  destruct (py_str heap limit (VSDict combined)) as [text|e] eqn:Ht;
    cbn [bind] in H; [|discriminate].
  inversion H; subst.
  split; [reflexivity|]. split; [reflexivity|].
  exists combined, text. split; [reflexivity|]. split; [exact Ht | reflexivity].
Qed.

(** The attributes a span starts with have no [error] among them. *)
Lemma create_span_context_no_error method self args kwargs class_name method_name attributes :
  create_span_context heap limit method self args kwargs
    = Ok (class_name, method_name, attributes) ->
  sdict_get "error" attributes = None.
Proof.
  intros H. apply create_span_context_Ok in H.
  destruct H as [_ [_ [combined [text [_ [_ Hattrs]]]]]]. subst attributes.
  reflexivity.
Qed.

(** [trace_method] picks the wrapper by the calling convention and
    keeps the method as [__wrapped__]. *)
Lemma trace_method_body method :
  fn_body (trace_method heap limit method) =
  match fn_body method with
  | AsyncGenBody run => AsyncGenBody (async_gen_wrapper heap limit method run)
  | AsyncBody run => AsyncBody (async_wrapper heap limit method run)
  | SyncBody run => SyncBody (sync_wrapper heap limit method run)
  end.
Proof. reflexivity. Qed.

(** C1, as the code has it.  For a synchronous method that returns [r]:
    when the span attributes of the call can be built and
    [serialize_value(r)] returns, the wrapper installed by
    [trace_method] returns [r] itself, after submitting one span more
    than the method did; and when [serialize_value(r)] raises, the
    wrapper raises that error instead of returning [r]. *)
Theorem sync_wrapper_transparent method run self args kwargs r out
    class_name method_name attributes :
  fn_body method = SyncBody run ->
  run self args kwargs = (Ok r, out) ->
  create_span_context heap limit method self args kwargs
    = Ok (class_name, method_name, attributes) ->
  fn_body (trace_method heap limit method)
    = SyncBody (sync_wrapper heap limit method run) /\
  let sp := open_span (class_name +:+ "." +:+ method_name) attributes in
  match serialize_value heap limit r with
  | Ok serialized =>
      sync_wrapper heap limit method run self args kwargs
        = (Ok r, out ++ [set_attribute "output" serialized sp])
  | Raise e =>
      sync_wrapper heap limit method run self args kwargs = (Raise e, out ++ [sp])
  end.
Proof.
  intros Hbody Hrun Hctx. split.
  - rewrite trace_method_body, Hbody. reflexivity.
  - unfold sync_wrapper. rewrite Hctx, Hrun.
    destruct (serialize_value heap limit r); reflexivity.
Qed.

(** C2, as the code has it.  When the span attributes of the call can
    be built and the method raises [e]: the synchronous wrapper raises
    [e] itself and submits the span as it was opened, with no [error]
    attribute; the generator wrapper raises [e] where the underlying
    generator does; the asynchronous wrapper, for an [e] that is an
    instance of [Exception] and whose [str(e)] returns, raises [e]
    itself and submits the span with [error] set to [str(e)].  An [e]
    that is not an instance of [Exception] passes through the
    asynchronous wrapper with no [error] attribute, and when [str(e)]
    raises, that second error is what the asynchronous wrapper
    raises. *)
Theorem wrappers_reraise method self args kwargs class_name method_name attributes
    e run out stream_of :
  create_span_context heap limit method self args kwargs
    = Ok (class_name, method_name, attributes) ->
  run self args kwargs = (Raise e, out) ->
  gen_ending (stream_of self args kwargs) = Raise e ->
  let sp := open_span (class_name +:+ "." +:+ method_name) attributes in
  sync_wrapper heap limit method run self args kwargs = (Raise e, out ++ [sp]) /\
  sdict_get "error" (span_attributes sp) = None /\
  gen_ending (async_gen_wrapper heap limit method stream_of self args kwargs) = Raise e /\
  (if is_exception e then
     match exn_str e with
     | Ok text =>
         async_wrapper heap limit method run self args kwargs
           = (Raise e, out ++ [set_attribute "error" (VStr text) sp]) /\
         sdict_get "error" (span_attributes (set_attribute "error" (VStr text) sp))
           = Some (VStr text)
     | Raise e' =>
         async_wrapper heap limit method run self args kwargs = (Raise e', out ++ [sp])
     end
   else
     async_wrapper heap limit method run self args kwargs = (Raise e, out ++ [sp])).
Proof.
  intros Hctx Hrun Hgen sp.
  split; [|split; [|split]].
  - unfold sync_wrapper. rewrite Hctx, Hrun. reflexivity.
  - simpl. exact (create_span_context_no_error _ _ _ _ _ _ _ Hctx).
  - unfold async_gen_wrapper. rewrite Hctx.
    generalize 0 as count. revert Hgen.
    generalize (stream_of self args kwargs) as inner.
    induction inner as [out' | out' e' | out' item resume IH closing];
      intros Hgen count; simpl in *.
    + discriminate.
    + exact Hgen.
    + apply IH. exact Hgen.
  - unfold async_wrapper. rewrite Hctx, Hrun.
    destruct (is_exception e); [|reflexivity].
    destruct (exn_str e) as [text|e']; [|reflexivity].
    split; [reflexivity|]. simpl. apply sdict_get_set_eq.
Qed.

(** *** The generator wrapper *)


(** After [S k] items the wrapper waits at its [yield] having counted
    [k] of them: its [finally] clause would record [count + k]. *)
Lemma take_async_gen_loop (sp : span) : forall k inner count items out resume closing,
  take (S k) (Fresh inner) = (items, out, Waiting resume closing) ->
  take (S k) (Fresh (async_gen_loop sp count inner)) =
  (items, out,
   Waiting (async_gen_loop sp (S (count + k)) resume)
           [set_attribute "chunk_count" (VInt (Z.of_nat (count + k))) sp]).
Proof.
  induction k as [|k IH]; intros inner count items out resume closing Htake.
  - destruct inner as [o | o e | o item r cl]; simpl in Htake; try discriminate.
    inversion Htake; subst. simpl. rewrite Nat.add_0_r. reflexivity.
  - destruct inner as [o | o e | o item r cl]; try discriminate.
    change (take (S (S k)) (Fresh (GYield o item r cl)))
      with (let '(items, out', st) := take (S k) (Fresh r) in
            (item :: items, o ++ out', st)) in Htake.
    destruct (take (S k) (Fresh r)) as [[items' out'] st'] eqn:Hr.
    inversion Htake; subst.
    specialize (IH r (S count) items' out' resume closing Hr).
    change (take (S (S k)) (Fresh (async_gen_loop sp count (GYield o item r cl))))
      with (let '(items, out', st) :=
              take (S k) (Fresh (async_gen_loop sp (S count) r)) in
            (item :: items, o ++ out', st)).
    rewrite IH. replace (S count + k) with (count + S k) by lia. reflexivity.
Qed.


(** What the code does when the consumer closes the wrapper after [k]
    items, [k] at least one and the underlying generator still waiting:
    the span is submitted, the wrapper is over, and [chunk_count] is
    [k - 1]. *)
Lemma async_gen_wrapper_early_close method stream_of self args kwargs
    class_name method_name attributes k items out resume closing :
  create_span_context heap limit method self args kwargs
    = Ok (class_name, method_name, attributes) ->
  0 < k ->
  take k (Fresh (stream_of self args kwargs)) = (items, out, Waiting resume closing) ->
  let sp := open_span (class_name +:+ "." +:+ method_name) attributes in
  take_then_close k (async_gen_wrapper heap limit method stream_of self args kwargs) =
  (items, out ++ [set_attribute "chunk_count" (VInt (Z.of_nat (k - 1))) sp], Over).
Proof.
  intros Hctx Hk Htake sp. destruct k as [|k]; [lia|].
  unfold take_then_close, async_gen_wrapper. rewrite Hctx.
  rewrite (take_async_gen_loop _ k _ 0 items out resume closing Htake).
  simpl. replace (k - 0) with k by lia. reflexivity.
Qed.


End Wrappers.

(** *** The wrappers on the example programs *)

Lemma sync_wrapper_transparent_witness :
  fn_body add = SyncBody add_run /\
  add_run an_X [VInt 7; VInt 8] [] = (Ok (VInt 15), []) /\
  create_span_context flat_heap default_limit add an_X [VInt 7; VInt 8] [] =
    Ok ("X", "add",
        [("__autotraced__", VBool true); ("__class__", VStr "X");
         ("__method__", VStr "add"); ("__type__", VStr "sync");
         ("__args__", VStr "{'a': 7, 'b': 8}")]) /\
  fst (sync_wrapper flat_heap default_limit add add_run an_X [VInt 7; VInt 8] []) =
    Ok (VInt 15).
Proof.
  assert (Hbody : fn_body add = SyncBody add_run) by reflexivity.
  assert (Hrun : add_run an_X [VInt 7; VInt 8] [] = (Ok (VInt 15), [])) by reflexivity.
  assert (Hctx : create_span_context flat_heap default_limit add an_X [VInt 7; VInt 8] [] =
    Ok ("X", "add",
        [("__autotraced__", VBool true); ("__class__", VStr "X");
         ("__method__", VStr "add"); ("__type__", VStr "sync");
         ("__args__", VStr "{'a': 7, 'b': 8}")])) by (vm_compute; reflexivity).
  split; [exact Hbody|]. split; [exact Hrun|]. split; [exact Hctx|].
  destruct (sync_wrapper_transparent flat_heap default_limit add add_run an_X
              [VInt 7; VInt 8] [] (VInt 15) [] _ _ _ Hbody Hrun Hctx) as [_ H].
  simpl in H. rewrite H. reflexivity.
Defined.

(** C1, as the spec states it, fails: [me] returns the list that
    contains itself, and the wrapper [trace_method] installs for [me]
    raises [RecursionError], from [serialize_value] on the result. *)
Lemma sync_wrapper_not_transparent :
  fn_body me = SyncBody me_run /\
  fst (me_run an_X [] []) = Ok (VRef 0) /\
  fn_body (trace_method loop_heap default_limit me)
    = SyncBody (sync_wrapper loop_heap default_limit me me_run) /\
  fst (sync_wrapper loop_heap default_limit me me_run an_X [] []) = Raise RecursionError.
Proof.
  repeat split; vm_compute; reflexivity.
Qed.

Lemma wrappers_reraise_witness :
  create_span_context flat_heap default_limit find an_X [VStr "k"] [] =
    Ok ("X", "find",
        [("__autotraced__", VBool true); ("__class__", VStr "X");
         ("__method__", VStr "find"); ("__type__", VStr "async");
         ("__args__", VStr "{'key': 'k'}")]) /\
  find_run an_X [VStr "k"] [] = (Raise not_found, []) /\
  gen_ending (find_stream an_X [VStr "k"] []) = Raise not_found /\
  fst (sync_wrapper flat_heap default_limit find find_run an_X [VStr "k"] [])
    = Raise not_found /\
  async_wrapper flat_heap default_limit find find_run an_X [VStr "k"] [] =
    (Raise not_found,
     [{| span_name := "X.find";
         span_attributes :=
           [("__autotraced__", VBool true); ("__class__", VStr "X");
            ("__method__", VStr "find"); ("__type__", VStr "async");
            ("__args__", VStr "{'key': 'k'}"); ("error", VStr "not found")] |}]) /\
  gen_ending (async_gen_wrapper flat_heap default_limit find find_stream an_X [VStr "k"] [])
    = Raise not_found.
Proof.
  assert (Hctx : create_span_context flat_heap default_limit find an_X [VStr "k"] [] =
    Ok ("X", "find",
        [("__autotraced__", VBool true); ("__class__", VStr "X");
         ("__method__", VStr "find"); ("__type__", VStr "async");
         ("__args__", VStr "{'key': 'k'}")])) by (vm_compute; reflexivity).
  assert (Hrun : find_run an_X [VStr "k"] [] = (Raise not_found, [])) by reflexivity.
  assert (Hgen : gen_ending (find_stream an_X [VStr "k"] []) = Raise not_found)
    by reflexivity.
  split; [exact Hctx|]. split; [exact Hrun|]. split; [exact Hgen|].
  destruct (wrappers_reraise flat_heap default_limit find an_X [VStr "k"] [] _ _ _
              not_found find_run [] find_stream Hctx Hrun Hgen)
    as [Hsync [_ [Hstream Hasync]]].
  simpl in Hasync. destruct Hasync as [Hasync _].
  split; [rewrite Hsync; reflexivity|]. split; [exact Hasync | exact Hstream].
Defined.

(** C2, as the spec states it, fails for the asynchronous wrapper.  A
    coroutine that is cancelled raises [CancelledError], which is not an
    instance of [Exception]: the wrapper lets it through and the span
    has no [error] attribute.  And for an error whose [__str__] raises,
    the wrapper raises the error of [__str__], not the error of the
    method, again with no [error] attribute. *)
Lemma async_wrapper_error_not_recorded :
  fn_body (trace_method flat_heap default_limit wait)
    = AsyncBody (async_wrapper flat_heap default_limit wait wait_run) /\
  wait_run an_X [] [] = (Raise cancelled, []) /\
  async_wrapper flat_heap default_limit wait wait_run an_X [] [] =
    (Raise cancelled,
     [{| span_name := "X.wait";
         span_attributes :=
           [("__autotraced__", VBool true); ("__class__", VStr "X");
            ("__method__", VStr "wait"); ("__type__", VStr "async");
            ("__args__", VStr "{}")] |}]) /\
  fn_body (trace_method flat_heap default_limit mumble)
    = AsyncBody (async_wrapper flat_heap default_limit mumble mumble_run) /\
  mumble_run an_X [] [] = (Raise mute, []) /\
  async_wrapper flat_heap default_limit mumble mumble_run an_X [] [] =
    (Raise boom,
     [{| span_name := "X.mumble";
         span_attributes :=
           [("__autotraced__", VBool true); ("__class__", VStr "X");
            ("__method__", VStr "mumble"); ("__type__", VStr "async");
            ("__args__", VStr "{}")] |}]) /\
  boom <> mute.
Proof.
  repeat split; try reflexivity. discriminate.
Qed.

(** C3, on the code.  The consumer of the wrapped [stream] takes one
    item of the three and closes the generator: the span is submitted,
    with [chunk_count] 0; after two items it is 1.  The count is the
    number of items consumed less one, because the wrapper counts an
    item when it is resumed after the [yield]. *)
Theorem early_close_chunk_count :
  take_then_close 1
    (async_gen_wrapper flat_heap default_limit stream stream_run an_X [] []) =
    ([VStr "a"],
     [{| span_name := "X.stream";
         span_attributes :=
           [("__autotraced__", VBool true); ("__class__", VStr "X");
            ("__method__", VStr "stream"); ("__type__", VStr "async_generator");
            ("__args__", VStr "{}"); ("chunk_count", VInt 0)] |}],
     Over) /\
  take_then_close 2
    (async_gen_wrapper flat_heap default_limit stream stream_run an_X [] []) =
    ([VStr "a"; VStr "b"],
     [{| span_name := "X.stream";
         span_attributes :=
           [("__autotraced__", VBool true); ("__class__", VStr "X");
            ("__method__", VStr "stream"); ("__type__", VStr "async_generator");
            ("__args__", VStr "{}"); ("chunk_count", VInt 1)] |}],
     Over).
Proof.
  split; vm_compute; reflexivity.
Qed.


(** C6.  With at least two nested calls left for [serialize_value] and
    [str], the call [add(2, 3)] on an instance of a class named [X],
    through the wrapper [trace_method] installs for [add]: the argument
    mapping is [{"a": 2, "b": 3}]; the call returns 5; and the span
    submitted is named ["X.add"], with [__method__] ["add"], the
    mapping in its string form under [__args__], and [output] 5. *)
Theorem add_call_span heap limit state :
  2 <= limit ->
  let self := {| recv_class := "X"; recv_state := state |} in
  combine_args heap limit add [VInt 2; VInt 3] [] = Ok [("a", VInt 2); ("b", VInt 3)] /\
  py_str heap limit (VSDict [("a", VInt 2); ("b", VInt 3)]) = Ok "{'a': 2, 'b': 3}" /\
  fn_body (trace_method heap limit add) = SyncBody (sync_wrapper heap limit add add_run) /\
  sync_wrapper heap limit add add_run self [VInt 2; VInt 3] [] =
    (Ok (VInt 5),
     [{| span_name := "X.add";
         span_attributes :=
           [("__autotraced__", VBool true); ("__class__", VStr "X");
            ("__method__", VStr "add"); ("__type__", VStr "sync");
            ("__args__", VStr "{'a': 2, 'b': 3}"); ("output", VInt 5)] |}]).
Proof.
  intros Hlimit self.
  destruct limit as [|[|n]]; [lia | lia |].
  repeat split; reflexivity.
Qed.

Lemma add_call_span_witness :
  2 <= default_limit /\
  fst (sync_wrapper flat_heap default_limit add add_run an_X [VInt 2; VInt 3] [])
    = Ok (VInt 5).
Proof.
  assert (Hlimit : 2 <= default_limit) by (unfold default_limit; lia).
  split; [exact Hlimit|].
  destruct (add_call_span flat_heap default_limit VNone Hlimit) as [_ [_ [_ H]]].
  unfold an_X. rewrite H. reflexivity.
Defined.

(** ** Classes *)

Section Classes.

Variable heap : addr -> container value.
Variable limit : nat.

Lemma trace_attr_private name a :
  String.prefix "_" name = true -> trace_attr heap limit name a = a.
Proof. intros H. destruct a; simpl; try reflexivity. rewrite H. reflexivity. Qed.

Lemma trace_attr_public name f :
  String.prefix "_" name = false ->
  trace_attr heap limit name (AFunction f) = AFunction (trace_method heap limit f).
Proof. intros H. simpl. rewrite H. reflexivity. Qed.

(** *** [trace_class] *)

Lemma trace_class_length c w :
  length (classes (trace_class heap limit c w)) = length (classes w).
Proof.
  unfold trace_class. destruct (classes w !! c); simpl;
    [apply length_insert | reflexivity].
Qed.

Lemma trace_class_calls c w :
  hook_calls (trace_class heap limit c w) = hook_calls w.
Proof. unfold trace_class. destruct (classes w !! c); reflexivity. Qed.

Lemma trace_class_other c w c' :
  c' <> c -> classes (trace_class heap limit c w) !! c' = classes w !! c'.
Proof.
  intros Hne. unfold trace_class. destruct (classes w !! c); simpl;
    [apply list_lookup_insert_ne; auto | reflexivity].
Qed.

Lemma trace_class_self c w k :
  classes w !! c = Some k ->
  classes (trace_class heap limit c w) !! c =
  Some {| cls_name := cls_name k; cls_mro := cls_mro k;
          cls_dict := map_imap (fun name a => Some (trace_attr heap limit name a))
                               (cls_dict k);
          cls_hook := cls_hook k |}.
Proof.
  intros H. unfold trace_class. rewrite H. simpl.
  apply list_lookup_insert_eq. eapply lookup_lt_Some. exact H.
Qed.

Lemma trace_class_shape c w i :
  class_shape <$> classes (trace_class heap limit c w) !! i =
  class_shape <$> classes w !! i.
Proof.
  destruct (decide (i = c)) as [->|Hne].
  - destruct (classes w !! c) as [k|] eqn:Hk.
    + rewrite (trace_class_self c w k Hk). reflexivity.
    + unfold trace_class. rewrite Hk. rewrite Hk. reflexivity.
  - rewrite trace_class_other by exact Hne. reflexivity.
Qed.

Lemma trace_class_vars_private c w c' name :
  String.prefix "_" name = true ->
  class_vars (trace_class heap limit c w) c' !! name = class_vars w c' !! name.
Proof.
  intros Hp. unfold class_vars.
  destruct (decide (c' = c)) as [->|Hne].
  - destruct (classes w !! c) as [k|] eqn:Hk.
    + rewrite (trace_class_self c w k Hk). simpl.
      rewrite map_lookup_imap. destruct (cls_dict k !! name) as [a|]; simpl.
      * rewrite trace_attr_private by exact Hp. reflexivity.
      * reflexivity.
    + unfold trace_class. rewrite Hk. rewrite Hk. reflexivity.
  - rewrite trace_class_other by exact Hne. reflexivity.
Qed.

(** *** [run_hook] *)

Lemma run_hook_length h : forall cls w,
  length (classes (run_hook heap limit h cls w)) = length (classes w).
Proof.
  induction h as [| tag | original IH bound]; intros cls w; simpl; try reflexivity.
  rewrite trace_class_length. apply IH.
Qed.

Lemma run_hook_shape h : forall cls w i,
  class_shape <$> classes (run_hook heap limit h cls w) !! i =
  class_shape <$> classes w !! i.
Proof.
  induction h as [| tag | original IH bound]; intros cls w i; simpl; try reflexivity.
  rewrite trace_class_shape. apply IH.
Qed.

Lemma run_hook_vars_private h : forall cls w c name,
  String.prefix "_" name = true ->
  class_vars (run_hook heap limit h cls w) c !! name = class_vars w c !! name.
Proof.
  induction h as [| tag | original IH bound]; intros cls w c name Hp; simpl;
    try reflexivity.
  rewrite trace_class_vars_private by exact Hp. apply IH. exact Hp.
Qed.

(** A hook leaves alone every class it is neither called with nor bound
    to. *)
Lemma run_hook_untouched h : forall n cls w c,
  hook_bounded n h = true -> n <= c -> c <> cls ->
  classes (run_hook heap limit h cls w) !! c = classes w !! c.
Proof.
  induction h as [| tag | original IH bound]; intros n cls w c Hb Hn Hne; simpl;
    try reflexivity.
  simpl in Hb. apply andb_true_iff in Hb. destruct Hb as [Hbound Hb].
  apply Nat.ltb_lt in Hbound.
  rewrite trace_class_other by exact Hne.
  apply (IH n); [exact Hb | exact Hn | lia].
Qed.

(** A hook that is not one of [trace_protocol] changes no class. *)
Lemma run_hook_plain h cls w :
  is_trace_hook h = false -> classes (run_hook heap limit h cls w) = classes w.
Proof. destruct h; simpl; [reflexivity | reflexivity | discriminate]. Qed.

(** *** [find_hook] *)

Lemma find_hook_cons table c rest k :
  table !! c = Some k ->
  find_hook table (c :: rest) =
  match cls_hook k with Some h => h | None => find_hook table rest end.
Proof. intros H. simpl. rewrite H. destruct k as [? ? ? [h|]]; reflexivity. Qed.

Lemma find_hook_shape table table' mro :
  (forall i, class_shape <$> table' !! i = class_shape <$> table !! i) ->
  find_hook table' mro = find_hook table mro.
Proof.
  intros Hshape. induction mro as [|c rest IH]; simpl; [reflexivity|].
  specialize (Hshape c).
  destruct (table' !! c) as [[? ? ? h']|], (table !! c) as [[? ? ? h]|];
    simpl in Hshape; try discriminate.
  - unfold class_shape in Hshape. simpl in Hshape. inversion Hshape; subst.
    destruct h; [reflexivity | exact IH].
  - exact IH.
Qed.

(** The class a class statement adds has no hook of its own, so the
    hook found along the parents is the one found before. *)
Lemma find_hook_new table k mro :
  cls_hook k = None -> find_hook (table ++ [k]) mro = find_hook table mro.
Proof.
  intros Hk. induction mro as [|c rest IH]; simpl; [reflexivity|].
  destruct (decide (c < length table)) as [Hlt|Hge].
  - rewrite lookup_app_l by exact Hlt.
    destruct (table !! c) as [[? ? ? [h|]]|]; [reflexivity | exact IH | exact IH].
  - rewrite (proj2 (lookup_ge_None table c)) by lia.
    destruct ((table ++ [k]) !! c) as [k'|] eqn:Hc; [|exact IH].
    assert (c = length table).
    { apply lookup_lt_Some in Hc. rewrite length_app in Hc. simpl in Hc. lia. }
    subst c. rewrite list_lookup_middle in Hc by reflexivity.
    inversion Hc; subst k'. destruct k as [? ? ? h]. simpl in Hk. subst h. exact IH.
Qed.

Lemma classes_ok_lookup n : forall ks i j k,
  classes_ok n i ks = true -> ks !! j = Some k ->
  (exists rest, cls_mro k = (i + j) :: rest) /\
  (forall h, cls_hook k = Some h -> hook_bounded n h = true).
Proof.
  induction ks as [|k0 ks IH]; intros i j k Hok Hj.
  - rewrite lookup_nil in Hj. discriminate.
  - simpl in Hok. apply andb_true_iff in Hok. destruct Hok as [Hok Hrest].
    apply andb_true_iff in Hok. destruct Hok as [Hmro Hhook].
    destruct j as [|j]; simpl in Hj.
    + inversion Hj; subst k0. split.
      * destruct (cls_mro k) as [|c rest]; [discriminate|].
        apply Nat.eqb_eq in Hmro. subst c. exists rest. f_equal. lia.
      * intros h Hh. rewrite Hh in Hhook. exact Hhook.
    + destruct (IH (S i) j k Hrest Hj) as [[rest Hr] Hb]. split.
      * exists rest. rewrite Hr. f_equal. lia.
      * exact Hb.
Qed.

Lemma find_hook_bounded n table mro :
  (forall j k h, table !! j = Some k -> cls_hook k = Some h -> hook_bounded n h = true) ->
  hook_bounded n (find_hook table mro) = true.
Proof.
  intros Hall. induction mro as [|c rest IH]; simpl; [reflexivity|].
  destruct (table !! c) as [[? ? ? [h|]]|] eqn:Hc; [|exact IH|exact IH].
  exact (Hall c _ h Hc eq_refl).
Qed.

(** *** Well-formed class tables are what the operations build *)

Lemma hook_bounded_mono h : forall n m,
  n <= m -> hook_bounded n h = true -> hook_bounded m h = true.
Proof.
  induction h as [| tag | original IH bound]; intros n m Hnm Hb; simpl in *;
    try reflexivity.
  apply andb_true_iff in Hb. destruct Hb as [Hbound Hb].
  apply Nat.ltb_lt in Hbound. apply andb_true_iff. split.
  - apply Nat.ltb_lt. lia.
  - exact (IH n m Hnm Hb).
Qed.

Lemma classes_ok_intro n : forall ks i,
  (forall j k, ks !! j = Some k ->
     (exists rest, cls_mro k = (i + j) :: rest) /\
     (forall h, cls_hook k = Some h -> hook_bounded n h = true)) ->
  classes_ok n i ks = true.
Proof.
  induction ks as [|k0 ks IH]; intros i Hall; simpl; [reflexivity|].
  destruct (Hall 0 k0 eq_refl) as [[rest Hmro] Hhook].
  rewrite Hmro. rewrite Nat.add_0_r, Nat.eqb_refl. simpl.
  apply andb_true_iff. split.
  - destruct (cls_hook k0) as [h|]; [apply Hhook; reflexivity | reflexivity].
  - apply IH. intros j k Hj. destruct (Hall (S j) k Hj) as [[rest' Hr] Hb].
    split; [|exact Hb]. exists rest'. rewrite Hr. f_equal. lia.
Qed.

Lemma world_ok_shape w w' :
  length (classes w') = length (classes w) ->
  (forall i, class_shape <$> classes w' !! i = class_shape <$> classes w !! i) ->
  world_ok w = true -> world_ok w' = true.
Proof.
  intros Hlen Hshape Hok. unfold world_ok. rewrite Hlen.
  apply classes_ok_intro. intros j k' Hj.
  specialize (Hshape j). rewrite Hj in Hshape.
  destruct (classes w !! j) as [k|] eqn:Hk; [|discriminate].
  unfold class_shape in Hshape. simpl in Hshape. inversion Hshape as [[Hname Hmro Hhook]].
  destruct (classes_ok_lookup _ _ 0 j k Hok Hk) as [Hm Hb].
  rewrite Hmro, Hhook. split; assumption.
Qed.

(** The empty class table is well formed, and decorating a class or
    defining one keeps a table well formed. *)
Lemma world_ok_empty : world_ok {| classes := []; hook_calls := [] |} = true.
Proof. reflexivity. Qed.

Lemma world_ok_trace_protocol w cls :
  world_ok w = true -> world_ok (snd (trace_protocol cls w)) = true.
Proof.
  intros Hok. unfold trace_protocol.
  destruct (classes w !! cls) as [k|] eqn:Hk; [|exact Hok].
  unfold world_ok. cbn [snd classes]. rewrite length_insert.
  apply classes_ok_intro. intros j k' Hj.
  destruct (decide (j = cls)) as [->|Hne].
  - rewrite list_lookup_insert_eq in Hj by (eapply lookup_lt_Some; exact Hk).
    inversion Hj; subst k'. cbn [cls_mro cls_hook].
    destruct (classes_ok_lookup _ _ 0 cls k Hok Hk) as [Hm _].
    split; [exact Hm|]. intros h Hh. inversion Hh; subst h. simpl.
    apply andb_true_iff. split.
    + apply Nat.ltb_lt. eapply lookup_lt_Some. exact Hk.
    + apply find_hook_bounded. intros i ki hi Hi Hhi.
      exact (proj2 (classes_ok_lookup _ _ 0 i ki Hok Hi) hi Hhi).
  - rewrite list_lookup_insert_ne in Hj by auto.
    exact (classes_ok_lookup _ _ 0 j k' Hok Hj).
Qed.

Lemma world_ok_define_class w name base body own :
  world_ok w = true ->
  world_ok (snd (define_class heap limit name base body own w)) = true.
Proof.
  intros Hok. unfold define_class. cbn [snd].
  match goal with |- world_ok (run_hook _ _ ?h ?c ?w1) = true =>
    apply (world_ok_shape w1);
      [apply run_hook_length | intros i; apply run_hook_shape |] end.
  unfold world_ok. cbn [classes]. rewrite length_app. simpl length.
  apply classes_ok_intro. intros j k Hj.
  destruct (decide (j < length (classes w))) as [Hlt|Hge].
  - rewrite lookup_app_l in Hj by exact Hlt.
    destruct (classes_ok_lookup _ _ 0 j k Hok Hj) as [Hm Hb].
    split; [exact Hm|]. intros h Hh.
    apply (hook_bounded_mono h (length (classes w))); [lia | exact (Hb h Hh)].
  - assert (j = length (classes w)).
    { apply lookup_lt_Some in Hj. rewrite length_app in Hj. simpl in Hj. lia. }
    subst j. rewrite list_lookup_middle in Hj by reflexivity.
    inversion Hj; subst k. cbn [cls_mro cls_hook]. split.
    + eexists. reflexivity.
    + intros h Hh. destruct own; inversion Hh; reflexivity.
Qed.

(** *** Class statements *)

(** A class statement under a parent whose hook is the closure of
    [trace_protocol]: the new class takes the next position, its
    namespace is the body with every public function wrapped, and the
    classes that the hook is not bound to are left as they were. *)
Lemma define_class_traced w base kb name body own original bound m :
  classes w !! base = Some kb ->
  find_hook (classes w) (cls_mro kb) = HTrace original bound ->
  hook_bounded m (HTrace original bound) = true ->
  m <= length (classes w) ->
  let n := length (classes w) in
  let w' := snd (define_class heap limit name (Some base) body own w) in
  fst (define_class heap limit name (Some base) body own w) = n /\
  classes w' !! n =
    Some {| cls_name := name; cls_mro := n :: cls_mro kb;
            cls_dict := map_imap (fun name a => Some (trace_attr heap limit name a)) body;
            cls_hook := HUser <$> own |} /\
  length (classes w') = S n /\
  (forall i, m <= i \/ is_trace_hook original = false -> i < n ->
             classes w' !! i = classes w !! i) /\
  (forall i, i < n -> class_shape <$> classes w' !! i = class_shape <$> classes w !! i).
Proof.
  intros Hbase Hfind Hb Hm n w'.
  simpl in Hb. apply andb_true_iff in Hb. destruct Hb as [Hbound Hb].
  apply Nat.ltb_lt in Hbound.
  subst w'. unfold define_class. rewrite Hbase. cbn [fst snd classes].
  rewrite Hfind. cbn [run_hook].
  fold n.
  set (new := {| cls_name := name; cls_mro := n :: cls_mro kb;
                 cls_dict := body; cls_hook := HUser <$> own |}).
  set (w1 := {| classes := classes w ++ [new]; hook_calls := hook_calls w |}).
  assert (Hnew : classes (run_hook heap limit original bound w1) !! n = Some new).
  { rewrite (run_hook_untouched original m bound w1 n Hb); [|lia|lia].
    apply list_lookup_middle. reflexivity. }
  split; [reflexivity|]. split; [|split; [|split]].
  - rewrite (trace_class_self n _ new Hnew). reflexivity.
  - rewrite trace_class_length, run_hook_length. simpl.
    rewrite length_app. simpl. lia.
  - intros i [Hmi|Hplain] Hin; rewrite trace_class_other by lia.
    + rewrite (run_hook_untouched original m bound w1 i Hb); [|lia|lia].
      simpl. apply lookup_app_l. exact Hin.
    + rewrite (run_hook_plain original bound w1 Hplain).
      simpl. apply lookup_app_l. exact Hin.
  - intros i Hin. rewrite trace_class_shape, run_hook_shape. simpl.
    rewrite lookup_app_l by exact Hin. reflexivity.
Qed.

(** What [trace_protocol] does to the class table. *)
Lemma trace_protocol_classes w cls k :
  classes w !! cls = Some k ->
  classes (snd (trace_protocol cls w)) =
  <[cls := {| cls_name := cls_name k; cls_mro := cls_mro k; cls_dict := cls_dict k;
              cls_hook := Some (HTrace (find_hook (classes w) (cls_mro k)) cls) |}]>
    (classes w).
Proof. intros H. unfold trace_protocol. rewrite H. reflexivity. Qed.

(** C7, as the code has it.  In a well-formed class table, [A] is
    decorated, then [class B(A)], which declares no [__init_subclass__]
    of its own, and [class C(B)] are defined.  Each public plain
    function of the body of [B] is, in [vars(B)], the wrapper
    [trace_method] builds from it, as soon as [B] is defined and still
    after [C] is defined; the same holds for the body of [C]; and a
    public function that [C] does not redeclare is found on [C] as that
    single wrapper of the function of [B], whose [__wrapped__] is the
    function itself. *)
Theorem subclasses_wrapped_once w a ka name_B ns_B name_C ns_C own_C :
  world_ok w = true ->
  classes w !! a = Some ka ->
  let w1 := snd (trace_protocol a w) in
  let b := fst (define_class heap limit name_B (Some a) ns_B None w1) in
  let w2 := snd (define_class heap limit name_B (Some a) ns_B None w1) in
  let c := fst (define_class heap limit name_C (Some b) ns_C own_C w2) in
  let w3 := snd (define_class heap limit name_C (Some b) ns_C own_C w2) in
  (forall name f,
      ns_B !! name = Some (AFunction f) -> String.prefix "_" name = false ->
      class_vars w2 b !! name = Some (AFunction (trace_method heap limit f)) /\
      class_vars w3 b !! name = Some (AFunction (trace_method heap limit f))) /\
  (forall name f,
      ns_C !! name = Some (AFunction f) -> String.prefix "_" name = false ->
      class_vars w3 c !! name = Some (AFunction (trace_method heap limit f))) /\
  (forall name f,
      ns_C !! name = None ->
      ns_B !! name = Some (AFunction f) -> String.prefix "_" name = false ->
      class_getattr w3 c name = Some (AFunction (trace_method heap limit f)) /\
      fn_wrapped (trace_method heap limit f) = Some f).
Proof.
  intros Hok Ha w1 b w2 c w3.
  set (n := length (classes w)).
  assert (Han : a < n) by (eapply lookup_lt_Some; exact Ha).
  destruct (classes_ok_lookup n (classes w) 0 a ka Hok Ha) as [[rest_A Hmro_A] _].
  simpl in Hmro_A.
  set (original := find_hook (classes w) (cls_mro ka)).
  assert (Horig : hook_bounded n original = true).
  { apply find_hook_bounded. intros j k h Hj Hh.
    exact (proj2 (classes_ok_lookup n (classes w) 0 j k Hok Hj) h Hh). }
  set (ka' := {| cls_name := cls_name ka; cls_mro := cls_mro ka; cls_dict := cls_dict ka;
                 cls_hook := Some (HTrace original a) |}).
  assert (Hw1 : classes w1 = <[a := ka']> (classes w))
    by (apply trace_protocol_classes; exact Ha).
  assert (Hlen1 : length (classes w1) = n) by (rewrite Hw1; apply length_insert).
  assert (Ha1 : classes w1 !! a = Some ka')
    by (rewrite Hw1; apply list_lookup_insert_eq; exact Han).
  assert (Hbounded : hook_bounded n (HTrace original a) = true).
  { simpl. apply andb_true_iff. split; [apply Nat.ltb_lt; exact Han | exact Horig]. }
  (* class B(A) *)
  destruct (define_class_traced w1 a ka' name_B ns_B None original a n Ha1)
    as [Hb [Hb2 [Hlen2 [_ Hshape2]]]].
  { change (cls_mro ka') with (cls_mro ka). rewrite Hmro_A.
    rewrite (find_hook_cons (classes w1) a rest_A ka' Ha1). reflexivity. }
  { exact Hbounded. }
  { lia. }
  fold b in Hb. fold w2 in Hb2, Hlen2, Hshape2. rewrite Hlen1 in Hb, Hb2, Hlen2, Hshape2.
  change (cls_mro ka') with (cls_mro ka) in Hb2. rewrite Hmro_A in Hb2.
  set (kb := {| cls_name := name_B; cls_mro := n :: a :: rest_A;
                cls_dict := map_imap (fun name x => Some (trace_attr heap limit name x)) ns_B;
                cls_hook := None |}) in Hb2.
  (* class C(B) *)
  assert (Ha2 : exists ka2, classes w2 !! a = Some ka2 /\
                            cls_hook ka2 = Some (HTrace original a)).
  { specialize (Hshape2 a Han). rewrite Ha1 in Hshape2.
    destruct (classes w2 !! a) as [ka2|]; [|discriminate].
    exists ka2. split; [reflexivity|].
    unfold class_shape in Hshape2. simpl in Hshape2. inversion Hshape2. reflexivity. }
  destruct Ha2 as [ka2 [Ha2 Hhook2]].
  destruct (define_class_traced w2 b kb name_C ns_C own_C original a n)
    as [Hc [Hc3 [_ [Hkeep3 _]]]].
  { rewrite Hb. exact Hb2. }
  { change (cls_mro kb) with (n :: a :: rest_A).
    rewrite (find_hook_cons (classes w2) n (a :: rest_A) kb Hb2).
    change (cls_hook kb) with (@None hook). cbv iota.
    rewrite (find_hook_cons (classes w2) a rest_A ka2 Ha2). rewrite Hhook2. reflexivity. }
  { exact Hbounded. }
  { lia. }
  fold c in Hc. fold w3 in Hc3, Hkeep3. rewrite Hlen2 in Hc, Hc3, Hkeep3.
  assert (Hb3 : classes w3 !! n = Some kb).
  { rewrite (Hkeep3 n); [exact Hb2 | left; lia | lia]. }
  split; [|split].
  - intros name f Hf Hpub. unfold class_vars. rewrite Hb, Hb2, Hb3. simpl.
    rewrite map_lookup_imap, Hf. simpl. rewrite Hpub. split; reflexivity.
  - intros name f Hf Hpub. unfold class_vars. rewrite Hc, Hc3. simpl.
    rewrite map_lookup_imap, Hf. simpl. rewrite Hpub. reflexivity.
  - intros name f Hnone Hf Hpub. split; [|reflexivity].
    unfold class_getattr. rewrite Hc, Hc3. cbn [cls_mro lookup_mro].
    rewrite Hc3. cbn [cls_dict]. rewrite map_lookup_imap, Hnone. simpl.
    rewrite Hb3. simpl. rewrite map_lookup_imap, Hf. simpl. rewrite Hpub. reflexivity.
Qed.

(** C8.  After any class statement, an attribute of the new class whose
    name begins with an underscore is what the body of the class held
    under that name, and so is every such attribute of every class
    defined before. *)
Theorem private_names_untouched w name base body own attr_name :
  String.prefix "_" attr_name = true ->
  let c := fst (define_class heap limit name base body own w) in
  let w' := snd (define_class heap limit name base body own w) in
  class_vars w' c !! attr_name = body !! attr_name /\
  (forall c', c' < length (classes w) ->
              class_vars w' c' !! attr_name = class_vars w c' !! attr_name).
Proof.
  intros Hp c w'. subst c w'. unfold define_class. cbn [fst snd].
  split.
  - rewrite run_hook_vars_private by exact Hp.
    unfold class_vars. cbn [classes].
    rewrite list_lookup_middle by reflexivity. reflexivity.
  - intros c' Hc'. rewrite run_hook_vars_private by exact Hp.
    unfold class_vars. cbn [classes].
    rewrite lookup_app_l by exact Hc'. reflexivity.
Qed.


End Classes.

(** *** The example classes *)


Lemma subclasses_wrapped_once_witness :
  world_ok base_world = true /\
  (exists ka, classes base_world !! 0 = Some ka) /\
  class_vars world_B 1 !! "add"
    = Some (AFunction (trace_method flat_heap default_limit add)) /\
  class_vars world_C 2 !! "stream"
    = Some (AFunction (trace_method flat_heap default_limit stream)) /\
  class_getattr world_C 2 "add"
    = Some (AFunction (trace_method flat_heap default_limit add)).
Proof.
  assert (Hok : world_ok base_world = true) by reflexivity.
  split; [exact Hok|]. split; [eexists; reflexivity|].
  destruct (subclasses_wrapped_once flat_heap default_limit base_world 0 _
              "B" body_B "C" body_C None Hok eq_refl) as [HB [HC Hinherit]].
  split; [|split].
  - exact (proj1 (HB "add" add eq_refl eq_refl)).
  - exact (HC "stream" stream eq_refl eq_refl).
  - exact (proj1 (Hinherit "add" add eq_refl eq_refl eq_refl)).
Defined.

Lemma private_names_untouched_witness :
  String.prefix "_" "_helper" = true /\
  class_vars world_B 1 !! "_helper" = Some (AFunction helper).
Proof.
  assert (Hp : String.prefix "_" "_helper" = true) by reflexivity.
  split; [exact Hp|].
  exact (proj1 (private_names_untouched flat_heap default_limit world_A "B" (Some 0)
                  body_B None "_helper" Hp)).
Defined.



(** C7, as the spec states it, fails.  [make], a public static method
    declared on [B], is not wrapped when [B] is defined: the hook wraps
    only what [inspect.isfunction] accepts.  When [B] declares an
    [__init_subclass__] of its own, the statement [class C(B)] calls
    that hook and not the one of [A]: [stream], a public method
    declared on [C], is not wrapped.  And when [B] is decorated in its
    turn, [add], which [C] inherits from [B], is wrapped a second time
    as [C] is defined. *)
Lemma subclass_methods_left_unwrapped :
  body_B !! "make" = Some (AStaticMethod ping) /\
  class_vars world_B 1 !! "make" = Some (AStaticMethod ping) /\
  class_vars world_B_hooked 1 !! "add"
    = Some (AFunction (trace_method flat_heap default_limit add)) /\
  body_C !! "stream" = Some (AFunction stream) /\
  class_vars world_C_under_hooked 2 !! "stream" = Some (AFunction stream) /\
  hook_calls world_C_under_hooked = [("mine", 2)] /\
  class_getattr world_C_under_B 2 "add"
    = Some (AFunction (trace_method flat_heap default_limit
                         (trace_method flat_heap default_limit add))).
Proof.
  repeat split; reflexivity.
Qed.



(** * Further properties *)

(** ** [serialize_value] on sequences and on its own results *)

Lemma map_result_first_error {A B : Type} (f : A -> result B) pre x post e :
  (forall p, In p pre -> is_ok (f p) = true) ->
  f x = Raise e ->
  map_result f (pre ++ x :: post) = Raise e.
Proof.
  intros Hpre Hx. induction pre as [|p pre IH]; simpl.
  - rewrite Hx. reflexivity.
  - specialize (Hpre p (or_introl eq_refl)) as Hp.
    destruct (f p) as [y|e']; [|discriminate]. simpl.
    rewrite IH; [reflexivity|].
    intros q Hq. apply Hpre. right. exact Hq.
Qed.

Lemma map_result_same {A : Type} (f : A -> result A) xs :
  (forall x, In x xs -> f x = Ok x) -> map_result f xs = Ok xs.
Proof.
  intros Hall. induction xs as [|x xs IH]; simpl; [reflexivity|].
  rewrite (Hall x (or_introl eq_refl)). simpl.
  rewrite IH; [reflexivity|]. intros y Hy. apply Hall. right. exact Hy.
Qed.

Lemma map_result_map {A B : Type} (f : A -> result B) (g : A -> B) xs :
  (forall x, In x xs -> f x = Ok (g x)) -> map_result f xs = Ok (map g xs).
Proof.
  intros Hall. induction xs as [|x xs IH]; simpl; [reflexivity|].
  rewrite (Hall x (or_introl eq_refl)). simpl.
  rewrite IH; [reflexivity|]. intros y Hy. apply Hall. right. exact Hy.
Qed.

Lemma distinct_middle k : forall l1 l2,
  distinct (l1 ++ k :: l2) = true -> existsb (String.eqb k) l1 = false.
Proof.
  induction l1 as [|a l1 IH]; intros l2 H; simpl in *; [reflexivity|].
  apply andb_true_iff in H. destruct H as [Ha Hrest].
  rewrite (IH l2 Hrest), orb_false_r.
  apply negb_true_iff in Ha. rewrite existsb_app in Ha.
  apply orb_false_iff in Ha. destruct Ha as [_ Ha]. simpl in Ha.
  apply orb_false_iff in Ha. destruct Ha as [Ha _].
  rewrite String.eqb_sym. exact Ha.
Qed.

Lemma sdict_set_fresh k v : forall d,
  existsb (String.eqb k) (sdict_keys d) = false -> sdict_set k v d = d ++ [(k, v)].
Proof.
  induction d as [|[k0 v0] d IH]; simpl; intros H; [reflexivity|].
  apply orb_false_iff in H. destruct H as [Hk Hrest].
  rewrite Hk. rewrite (IH Hrest). reflexivity.
Qed.

Lemma sdict_fold_distinct items : forall d,
  distinct (sdict_keys (d ++ items)) = true ->
  fold_left (fun d kv => sdict_set (fst kv) (snd kv) d) items d = d ++ items.
Proof.
  induction items as [|[k v] items IH]; intros d H; simpl.
  - rewrite app_nil_r. reflexivity.
  - rewrite sdict_set_fresh.
    + rewrite IH; rewrite <- app_assoc; [reflexivity | exact H].
    + unfold sdict_keys in *. rewrite map_app in H. simpl in H.
      exact (distinct_middle k _ _ H).
Qed.

(** A dict built from items with pairwise different keys is the items. *)
Lemma sdict_of_items_distinct items :
  distinct (sdict_keys items) = true -> sdict_of_items items = items.
Proof. intros H. unfold sdict_of_items. apply (sdict_fold_distinct items []). exact H. Qed.

Lemma distinct_NoDup (ks : list string) : NoDup ks -> distinct ks = true.
Proof.
  induction 1 as [|k ks Hnotin _ IH]; simpl; [reflexivity|].
  rewrite IH, andb_true_r. apply negb_true_iff.
  destruct (existsb (String.eqb k) ks) eqn:E; [|reflexivity].
  apply existsb_exists in E. destruct E as [k' [Hin Heq]].
  apply String.eqb_eq in Heq. subst k'.
  exfalso. apply Hnotin. apply list_elem_of_In. exact Hin.
Qed.

Lemma canonical_VSDict (d : sdict) :
  Forall (fun x => canonical x = true) (map snd d) ->
  NoDup (sdict_keys d) ->
  canonical (VSDict d) = true.
Proof.
  intros Hvalues Hkeys. unfold VSDict. simpl. apply andb_true_iff. split.
  - apply forallb_forall. intros kv Hin.
    apply in_map_iff in Hin. destruct Hin as [[k x] [Heq Hin]]. subst kv. simpl.
    rewrite List.Forall_forall in Hvalues. apply Hvalues.
    apply (in_map snd) in Hin. exact Hin.
  - rewrite map_map. apply distinct_NoDup. exact Hkeys.
Qed.

Section SerializerMore.

Variable heap : addr -> container value.

Lemma serialize_value_sequence_unfold depth v c items :
  container_of heap v = Some c -> sequence_items c = Some items ->
  serialize_value heap (S depth) v =
  do out <- map_result (serialize_value heap depth) items; Ok (VList out).
Proof.
  intros Hc Hs.
  destruct c; simpl in Hs; try discriminate; inversion Hs; subst;
    destruct v; simpl in Hc; try discriminate; inversion Hc as [Hh]; simpl;
    try rewrite Hh; reflexivity.
Qed.

(** X1.  [serialize_value] of a list, a tuple or a set, given by its
    contents or by its address: when it returns, the result is a list
    of the same length whose element at each position is
    [serialize_value] of the element at that position. *)
Theorem serialize_value_sequence depth v c items out :
  container_of heap v = Some c -> sequence_items c = Some items ->
  serialize_value heap (S depth) v = Ok out ->
  exists outs,
    out = VList outs /\ length outs = length items /\
    (forall i x, items !! i = Some x ->
                 exists y, outs !! i = Some y /\ serialize_value heap depth x = Ok y).
Proof.
  intros Hc Hs Hout.
  rewrite (serialize_value_sequence_unfold depth v c items Hc Hs) in Hout.
  destruct (map_result (serialize_value heap depth) items) as [outs|e] eqn:Hmap;
    simpl in Hout; [|discriminate].
  inversion Hout; subst out. apply map_result_Ok_Forall2 in Hmap.
  exists outs. split; [reflexivity|]. split.
  - symmetry. exact (Forall2_length _ _ _ Hmap).
  - intros i x Hi. destruct (Forall2_lookup_l _ _ _ _ _ Hmap Hi) as [y [Hy Hxy]].
    exists y. split; assumption.
Qed.

(** X2.  The elements of a list, a tuple or a set are serialized from
    the left, and the error of the first one that fails is the error of
    the whole: nothing of the elements before it is returned. *)
Theorem serialize_value_first_error depth v c pre x post e :
  container_of heap v = Some c -> sequence_items c = Some (pre ++ x :: post) ->
  (forall p, In p pre -> is_ok (serialize_value heap depth p) = true) ->
  serialize_value heap depth x = Raise e ->
  serialize_value heap (S depth) v = Raise e.
Proof.
  intros Hc Hs Hpre Hx.
  rewrite (serialize_value_sequence_unfold depth v c _ Hc Hs).
  rewrite (map_result_first_error _ pre x post e Hpre Hx). reflexivity.
Qed.

Lemma serialize_value_fixed : forall depth v,
  canonical v = true -> height v <= depth -> serialize_value heap depth v = Ok v.
Proof.
  induction depth as [|d IH]; intros v Hc Hh.
  - destruct v as [| | | | | | [] | | | |]; simpl in Hh; lia.
  - destruct v as [| b | z | r | s | dump txt | c | a | txt | txt | txt];
      simpl in Hc; try discriminate; try reflexivity.
    destruct c as [items | items | items | items]; simpl in Hc, Hh; try discriminate.
    + simpl. rewrite map_result_same; [reflexivity|].
      intros x Hin. apply IH.
      * rewrite forallb_forall in Hc. apply Hc. exact Hin.
      * apply (height_items_le height items d x); [lia | exact Hin].
    + apply andb_true_iff in Hc. destruct Hc as [Hitems Hkeys].
      rewrite forallb_forall in Hitems.
      change (serialize_value heap (S d) (VDict items))
        with (do out <- map_result (dict_item heap d) items;
              Ok (VSDict (sdict_of_items out))).
      rewrite (map_result_map _ (fun kv => (key_text kv, snd kv))).
      * simpl. rewrite sdict_of_items_distinct.
        -- unfold VSDict. rewrite map_map.
           assert (Hsame : map (fun kv : value * value =>
                                  (VStr (fst (key_text kv, snd kv)),
                                   snd (key_text kv, snd kv))) items = items).
           { rewrite <- (map_id items) at 2. apply map_ext_in.
             intros [k x] Hin. specialize (Hitems _ Hin). simpl in *.
             destruct k; try discriminate. reflexivity. }
           rewrite Hsame. reflexivity.
        -- unfold sdict_keys. rewrite map_map. exact Hkeys.
      * intros [k x] Hin. specialize (Hitems _ Hin) as Hkv. simpl in Hkv.
        destruct k; try discriminate.
        destruct (height_pairs_le items d (VStr s, x)) as [_ Hhx]; [lia | exact Hin |].
        apply dict_item_Ok. simpl. split; [reflexivity|].
        apply IH; assumption.
Qed.

(** X3.  A JSON value nested no deeper than the interpreter allows is
    returned as it is, whatever the store holds. *)
Theorem serialize_value_canonical_fixed depth v :
  canonical v = true -> height v <= depth -> serialize_value heap depth v = Ok v.
Proof. apply serialize_value_fixed. Qed.

Lemma serialize_value_canonical_out : forall depth v out,
  tame v = true -> canonical_dumps v = true ->
  serialize_value heap depth v = Ok out -> canonical out = true.
Proof.
  induction depth as [|d IH]; intros v out Ht Hd Hout; [discriminate|].
  destruct v as [| b | z | r | s | dump txt | c | a | txt | txt | txt];
    simpl in Ht, Hd; try discriminate;
    try (simpl in Hout; inversion Hout; subst; reflexivity);
    try (simpl in Hout; destruct (str_of txt); simpl in Hout; [|discriminate];
         inversion Hout; subst; reflexivity).
  - simpl in Hout. destruct dump as [dump|e]; [|discriminate].
    inversion Hout; subst. exact Hd.
  - destruct c as [items | items | items | items].
    1-3: simpl in Ht, Hd, Hout;
      destruct (map_result (serialize_value heap d) items) as [outs|e] eqn:Hmap;
      simpl in Hout; [|discriminate]; inversion Hout; subst out;
      apply map_result_Ok_Forall2 in Hmap; simpl; apply forallb_forall;
      intros y Hy; apply list_elem_of_In, list_elem_of_lookup in Hy;
      destruct Hy as [i Hi];
      destruct (Forall2_lookup_r _ _ _ _ _ Hmap Hi) as [x [Hx Hxy]];
      assert (Hin : In x items) by (apply list_elem_of_In, list_elem_of_lookup; eauto);
      rewrite forallb_forall in Ht, Hd;
      exact (IH x y (Ht x Hin) (Hd x Hin) Hxy).
    simpl in Ht, Hd.
    change (serialize_value heap (S d) (VDict items))
      with (do out <- map_result (dict_item heap d) items;
            Ok (VSDict (sdict_of_items out))) in Hout.
    destruct (map_result (dict_item heap d) items) as [entries|e] eqn:Hmap;
      simpl in Hout; [|discriminate].
    inversion Hout; subst out. apply map_result_Ok_Forall2 in Hmap.
    apply canonical_VSDict; [|apply sdict_of_items_NoDup].
    unfold sdict_of_items. apply sdict_fold_values; [|constructor].
    apply List.Forall_forall. intros y Hy.
    apply in_map_iff in Hy. destruct Hy as [[k y'] [Heq Hy]]. simpl in Heq. subst y'.
    apply list_elem_of_In, list_elem_of_lookup in Hy. destruct Hy as [i Hi].
    destruct (Forall2_lookup_r _ _ _ _ _ Hmap Hi) as [kv [Hkv Hitem]].
    apply dict_item_Ok in Hitem. destruct Hitem as [_ Hx].
    assert (Hin : In kv items) by (apply list_elem_of_In, list_elem_of_lookup; eauto).
    rewrite forallb_forall in Ht, Hd.
    specialize (Ht kv Hin). apply andb_true_iff in Ht. destruct Ht as [_ Htx].
    exact (IH (snd kv) y Htx (Hd kv Hin) Hx).
Qed.

(** X4.  [serialize_value] is idempotent on a value that does not
    contain itself and whose [model_dump()] results are JSON values:
    what it returns is a JSON value, and serializing that again, at any
    depth that fits it, returns it unchanged. *)
Theorem serialize_value_idempotent depth v out :
  tame v = true -> canonical_dumps v = true ->
  serialize_value heap depth v = Ok out ->
  canonical out = true /\
  (forall depth', height out <= depth' -> serialize_value heap depth' out = Ok out).
Proof.
  intros Ht Hd Hout.
  assert (Hc : canonical out = true)
    by exact (serialize_value_canonical_out depth v out Ht Hd Hout).
  split; [exact Hc|]. intros depth' Hh. apply serialize_value_fixed; assumption.
Qed.

End SerializerMore.

(** ** More on the wrappers *)

Lemma nth_error_is_lookup {A : Type} (l : list A) : forall i, nth_error l i = l !! i.
Proof. induction l as [|a l IH]; intros [|i]; simpl; auto. Qed.

Lemma combine_lookup {A B : Type} : forall (l1 : list A) (l2 : list B) i a b,
  l1 !! i = Some a -> l2 !! i = Some b -> combine l1 l2 !! i = Some (a, b).
Proof.
  induction l1 as [|x l1 IH]; intros l2 i a b H1 H2.
  - rewrite lookup_nil in H1. discriminate.
  - destruct l2 as [|y l2]; [rewrite lookup_nil in H2; discriminate|].
    destruct i as [|i]; simpl in *.
    + inversion H1; inversion H2; reflexivity.
    + apply IH; assumption.
Qed.

Section WrappersMore.

Variable heap : addr -> container value.
Variable limit : nat.

Lemma add_positional_first_error names pre x post e : forall i combined,
  (forall p, In p pre -> is_ok (serialize_value heap limit p) = true) ->
  serialize_value heap limit x = Raise e ->
  add_positional heap limit names i (pre ++ x :: post) combined = Raise e.
Proof.
  induction pre as [|p pre IH]; intros i combined Hpre Hx; simpl.
  - rewrite Hx. reflexivity.
  - specialize (Hpre p (or_introl eq_refl)) as Hp.
    destruct (serialize_value heap limit p) as [y|e']; [|discriminate]. simpl.
    apply IH; [|exact Hx]. intros q Hq. apply Hpre. right. exact Hq.
Qed.

(** X5.  When a positional argument cannot be serialized, the wrapped
    call fails with the error of the first such argument before the
    method runs: whatever the method would do, each wrapper raises that
    error and submits no span. *)
Theorem unserializable_argument_fails_call method self pre x post kwargs e
    run stream_of :
  (forall p, In p pre -> is_ok (serialize_value heap limit p) = true) ->
  serialize_value heap limit x = Raise e ->
  sync_wrapper heap limit method run self (pre ++ x :: post) kwargs = (Raise e, []) /\
  async_wrapper heap limit method run self (pre ++ x :: post) kwargs = (Raise e, []) /\
  async_gen_wrapper heap limit method stream_of self (pre ++ x :: post) kwargs
    = GRaise [] e.
Proof.
  intros Hpre Hx.
  assert (Hctx : create_span_context heap limit method self (pre ++ x :: post) kwargs
                 = Raise e).
  { unfold create_span_context, combine_args.
    rewrite (add_positional_first_error _ pre x post e 0 [] Hpre Hx). reflexivity. }
  unfold sync_wrapper, async_wrapper, async_gen_wrapper. rewrite Hctx.
  repeat split; reflexivity.
Qed.

Lemma add_positional_entries names : forall args outs i combined,
  Forall2 (fun a o => serialize_value heap limit a = Ok o) args outs ->
  add_positional heap limit names i args combined =
  Ok (fold_left (fun d kv => sdict_set (fst kv) (snd kv) d)
                (positional_entries names i outs) combined).
Proof.
  induction args as [|a args IH]; intros outs i combined HF.
  - inversion HF; subst. reflexivity.
  - inversion HF as [|? o ? outs' Ha HF']; subst. simpl. rewrite Ha. simpl.
    rewrite (IH outs' (S i) _ HF'). reflexivity.
Qed.

Lemma add_keywords_entries : forall kwargs outs combined,
  Forall2 (fun kv o => serialize_value heap limit (snd kv) = Ok o) kwargs outs ->
  add_keywords heap limit kwargs combined =
  Ok (fold_left (fun d kv => sdict_set (fst kv) (snd kv) d)
                (keyword_entries kwargs outs) combined).
Proof.
  induction kwargs as [|[k v] kwargs IH]; intros outs combined HF.
  - inversion HF; subst. reflexivity.
  - inversion HF as [|? o ? outs' Hv HF']; subst. simpl in Hv |- *. rewrite Hv. simpl.
    rewrite (IH outs' _ HF'). reflexivity.
Qed.

(** X6.  The argument mapping of a call whose arguments serialize: it
    is the dict obtained by writing the positional arguments, each
    under the name of the parameter at its position after the receiver
    or under [position_N] beyond the declared parameters, and then the
    keyword arguments under their names.  So the value recorded under a
    name is that of the last of these entries with the name: a keyword
    replaces a positional argument of the same name. *)
Theorem combine_args_entries method args outs kwargs kouts :
  Forall2 (fun a o => serialize_value heap limit a = Ok o) args outs ->
  Forall2 (fun kv o => serialize_value heap limit (snd kv) = Ok o) kwargs kouts ->
  let entries := positional_entries (tail (fn_params method)) 0 outs
                 ++ keyword_entries kwargs kouts in
  combine_args heap limit method args kwargs = Ok (sdict_of_items entries) /\
  (forall k, sdict_get k (sdict_of_items entries) = last_value k entries) /\
  (forall i o, outs !! i = Some o ->
     entries !! i =
     Some (match tail (fn_params method) !! i with
           | Some name => name
           | None => "position_" +:+ str_nat (i + 1)
           end, o)).
Proof.
  intros Hargs Hkw entries. split; [|split].
  - unfold combine_args.
    rewrite (add_positional_entries _ args outs 0 [] Hargs). simpl.
    rewrite (add_keywords_entries kwargs kouts _ Hkw).
    unfold sdict_of_items, entries. rewrite fold_left_app. reflexivity.
  - intros k. apply sdict_of_items_get.
  - intros i o Hi. unfold entries.
    assert (Hlt : i < length outs) by (eapply lookup_lt_Some; exact Hi).
    rewrite lookup_app_l.
    2:{ unfold positional_entries. rewrite length_combine, length_map, length_seq. lia. }
    unfold positional_entries.
    replace (match tail (fn_params method) !! i with
             | Some name => name
             | None => "position_" +:+ str_nat (i + 1)
             end)
      with (param_name (tail (fn_params method)) i)
      by (unfold param_name; rewrite nth_error_is_lookup; reflexivity).
    apply combine_lookup; [|exact Hi].
    rewrite list_lookup_fmap, lookup_seq_lt by exact Hlt. reflexivity.
Qed.

(** X7.  Once the span attributes of a call are built, the synchronous
    and the asynchronous wrapper submit exactly one span after those of
    the method, however the method ends: it is named after the class of
    the receiver and the name of the method, and it still carries the
    attributes that identify the call. *)
Theorem wrapper_submits_one_span method run self args kwargs
    class_name method_name attributes outcome out wrapper :
  create_span_context heap limit method self args kwargs
    = Ok (class_name, method_name, attributes) ->
  run self args kwargs = (outcome, out) ->
  wrapper = sync_wrapper heap limit method run \/
  wrapper = async_wrapper heap limit method run ->
  exists sp,
    snd (wrapper self args kwargs) = out ++ [sp] /\
    span_name sp = recv_class self +:+ "." +:+ fn_name method /\
    sdict_get "__autotraced__" (span_attributes sp) = Some (VBool true) /\
    sdict_get "__class__" (span_attributes sp) = Some (VStr (recv_class self)) /\
    sdict_get "__method__" (span_attributes sp) = Some (VStr (fn_name method)) /\
    sdict_get "__type__" (span_attributes sp) = Some (VStr (span_type method)).
Proof.
  intros Hctx Hrun Hwrapper.
  destruct (create_span_context_Ok heap limit _ _ _ _ _ _ _ Hctx)
    as [Hcn [Hmn [combined [text [_ [_ Hattrs]]]]]].
  subst class_name method_name.
  destruct Hwrapper as [-> | ->].
  - unfold sync_wrapper. rewrite Hctx, Hrun. subst attributes.
    destruct outcome as [r|e]; [destruct (serialize_value heap limit r) as [s|e]|];
      eexists; (split; [reflexivity|]); repeat split; reflexivity.
  - unfold async_wrapper. rewrite Hctx, Hrun. subst attributes.
    destruct outcome as [r|e]; [destruct (serialize_value heap limit r) as [s|e]|];
      try (destruct (is_exception e); [destruct (exn_str e) as [shown|e']|]);
      eexists; (split; [reflexivity|]); repeat split; reflexivity.
Qed.

(** X8.  The asynchronous wrapper on a method that returns [r], once
    the span attributes are built.  When [serialize_value(r)] returns,
    the wrapper returns [r] and the span has it under [output], with no
    [error].  When it raises [e], the span has no [output]; for an [e]
    that is an instance of [Exception] and whose [str(e)] returns, the
    wrapper raises [e] and the span has that text under [error]; when
    [str(e)] raises, the wrapper raises that second error and the span
    has no [error]; an [e] that is not an instance of [Exception]
    passes through with no [error]. *)
Theorem async_wrapper_outcomes method run self args kwargs r out
    class_name method_name attributes :
  create_span_context heap limit method self args kwargs
    = Ok (class_name, method_name, attributes) ->
  run self args kwargs = (Ok r, out) ->
  let sp := open_span (class_name +:+ "." +:+ method_name) attributes in
  sdict_get "output" (span_attributes sp) = None /\
  sdict_get "error" (span_attributes sp) = None /\
  match serialize_value heap limit r with
  | Ok serialized =>
      async_wrapper heap limit method run self args kwargs
        = (Ok r, out ++ [set_attribute "output" serialized sp]) /\
      sdict_get "output" (span_attributes (set_attribute "output" serialized sp))
        = Some serialized /\
      sdict_get "error" (span_attributes (set_attribute "output" serialized sp)) = None
  | Raise e =>
      if is_exception e then
        match exn_str e with
        | Ok text =>
            async_wrapper heap limit method run self args kwargs
              = (Raise e, out ++ [set_attribute "error" (VStr text) sp]) /\
            sdict_get "error" (span_attributes (set_attribute "error" (VStr text) sp))
              = Some (VStr text) /\
            sdict_get "output" (span_attributes (set_attribute "error" (VStr text) sp))
              = None
        | Raise e' =>
            async_wrapper heap limit method run self args kwargs = (Raise e', out ++ [sp])
        end
      else
        async_wrapper heap limit method run self args kwargs = (Raise e, out ++ [sp])
  end.
Proof.
  intros Hctx Hrun sp.
  destruct (create_span_context_Ok heap limit _ _ _ _ _ _ _ Hctx)
    as [_ [_ [combined [text [_ [_ Hattrs]]]]]].
  unfold async_wrapper. rewrite Hctx, Hrun.
  split; [subst sp attributes; reflexivity|].
  split; [subst sp attributes; reflexivity|].
  destruct (serialize_value heap limit r) as [s|e].
  - subst sp attributes. repeat split; reflexivity.
  - destruct (is_exception e); [|reflexivity].
    destruct (exn_str e) as [shown|e']; [|reflexivity].
    subst sp attributes. repeat split; reflexivity.
Qed.

Lemma async_gen_loop_stream (sp : span) : forall inner count,
  gen_items (async_gen_loop sp count inner) = gen_items inner /\
  gen_ending (async_gen_loop sp count inner) = gen_ending inner /\
  gen_spans (async_gen_loop sp count inner) =
    gen_spans inner ++
    [set_attribute "chunk_count"
       (VInt (Z.of_nat (count + length (gen_items inner)))) sp].
Proof.
  induction inner as [out | out e | out item resume IH closing]; intros count; simpl.
  - rewrite Nat.add_0_r. repeat split; reflexivity.
  - rewrite Nat.add_0_r. repeat split; reflexivity.
  - destruct (IH (S count)) as [Hitems [Hend Hspans]].
    rewrite Hitems, Hend, Hspans.
    replace (S count + length (gen_items resume))
      with (count + S (length (gen_items resume))) by lia.
    rewrite <- app_assoc. repeat split; reflexivity.
Qed.

(** X9.  Once the span attributes are built, the generator wrapper
    driven to its end passes on the stream as it is: the same items in
    the same order and the same ending, a return or the same error; and
    it submits one span after those of the underlying generator, whose
    [chunk_count] is the number of items, also when the stream ends
    with an error. *)
Theorem async_gen_wrapper_stream method stream_of self args kwargs
    class_name method_name attributes :
  create_span_context heap limit method self args kwargs
    = Ok (class_name, method_name, attributes) ->
  let inner := stream_of self args kwargs in
  let wrapped := async_gen_wrapper heap limit method stream_of self args kwargs in
  let sp := open_span (class_name +:+ "." +:+ method_name) attributes in
  gen_items wrapped = gen_items inner /\
  gen_ending wrapped = gen_ending inner /\
  gen_spans wrapped =
    gen_spans inner ++
    [set_attribute "chunk_count" (VInt (Z.of_nat (length (gen_items inner)))) sp].
Proof.
  intros Hctx inner wrapped sp. subst wrapped. unfold async_gen_wrapper.
  rewrite Hctx. exact (async_gen_loop_stream sp inner 0).
Qed.

(** X10.  Closing the generator wrapper.  Before the first item is
    asked for, nothing runs and no span is submitted.  After [k] items,
    [k] at least one, with the underlying generator waiting, the span
    is submitted once, the wrapper is over, and [chunk_count] is the
    number of times the wrapper was resumed, [k - 1]. *)
Theorem async_gen_wrapper_closed method stream_of self args kwargs
    class_name method_name attributes k items out resume closing :
  create_span_context heap limit method self args kwargs
    = Ok (class_name, method_name, attributes) ->
  take (S k) (Fresh (stream_of self args kwargs)) = (items, out, Waiting resume closing) ->
  let wrapped := async_gen_wrapper heap limit method stream_of self args kwargs in
  let sp := open_span (class_name +:+ "." +:+ method_name) attributes in
  take_then_close 0 wrapped = ([], [], Over) /\
  take_then_close (S k) wrapped =
    (items, out ++ [set_attribute "chunk_count" (VInt (Z.of_nat k)) sp], Over) /\
  length items = S k.
Proof.
  intros Hctx Htake wrapped sp. split; [reflexivity|]. split.
  - subst wrapped. unfold take_then_close, async_gen_wrapper. rewrite Hctx.
    rewrite (take_async_gen_loop _ k _ 0 items out resume closing Htake).
    reflexivity.
  - clear Hctx wrapped sp. revert items out Htake.
    generalize (stream_of self args kwargs) as g.
    induction k as [|k IH]; intros g items out Htake.
    + destruct g as [o | o e | o item r cl]; simpl in Htake; try discriminate.
      inversion Htake. reflexivity.
    + destruct g as [o | o e | o item r cl]; try discriminate.
      change (take (S (S k)) (Fresh (GYield o item r cl)))
        with (let '(items, out', st) := take (S k) (Fresh r) in
              (item :: items, o ++ out', st)) in Htake.
      destruct (take (S k) (Fresh r)) as [[items' out'] st'] eqn:Hr.
      inversion Htake; subst. simpl. f_equal. exact (IH r items' out' Hr).
Qed.

Lemma create_span_context_traced method self args kwargs :
  create_span_context heap limit (trace_method heap limit method) self args kwargs =
  create_span_context heap limit method self args kwargs.
Proof.
  unfold create_span_context, combine_args, span_type, is_async_gen, is_async.
  simpl. destruct (fn_body method); reflexivity.
Qed.

(** X11.  [trace_method] on a wrapper it built itself.  The second
    wrapper has the name, the signature and the calling convention of
    the method, and the first wrapper as [__wrapped__]; a call through
    both that returns [r] returns [r] and submits the same span twice,
    the inner one first. *)
Theorem trace_method_twice method run self args kwargs r out serialized
    class_name method_name attributes :
  fn_body method = SyncBody run ->
  create_span_context heap limit method self args kwargs
    = Ok (class_name, method_name, attributes) ->
  run self args kwargs = (Ok r, out) ->
  serialize_value heap limit r = Ok serialized ->
  let once := trace_method heap limit method in
  let twice := trace_method heap limit once in
  let sp := set_attribute "output" serialized
              (open_span (class_name +:+ "." +:+ method_name) attributes) in
  fn_name twice = fn_name method /\ fn_params twice = fn_params method /\
  fn_wrapped twice = Some once /\
  fn_body twice
    = SyncBody (sync_wrapper heap limit once (sync_wrapper heap limit method run)) /\
  sync_wrapper heap limit once (sync_wrapper heap limit method run) self args kwargs
    = (Ok r, (out ++ [sp]) ++ [sp]).
Proof.
  intros Hbody Hctx Hrun Hser once twice sp.
  split; [reflexivity|]. split; [reflexivity|]. split; [reflexivity|]. split.
  - subst twice once. rewrite trace_method_body. rewrite trace_method_body, Hbody.
    reflexivity.
  - assert (Hinner : sync_wrapper heap limit method run self args kwargs
                     = (Ok r, out ++ [sp])).
    { unfold sync_wrapper. rewrite Hctx, Hrun, Hser. reflexivity. }
    unfold sync_wrapper at 1. subst once.
    rewrite create_span_context_traced, Hctx, Hinner, Hser. reflexivity.
Qed.

End WrappersMore.

(** ** More on classes *)

Section ClassesMore.

Variable heap : addr -> container value.
Variable limit : nat.

Lemma trace_class_vars_lookup c w c' name :
  class_vars (trace_class heap limit c w) c' !! name =
  if decide (c' = c)
  then trace_attr heap limit name <$> class_vars w c' !! name
  else class_vars w c' !! name.
Proof.
  unfold class_vars. destruct (decide (c' = c)) as [->|Hne].
  - destruct (classes w !! c) as [k|] eqn:Hk.
    + rewrite (trace_class_self heap limit c w k Hk). simpl.
      rewrite map_lookup_imap. destruct (cls_dict k !! name); reflexivity.
    + unfold trace_class. rewrite Hk. rewrite Hk. reflexivity.
  - rewrite trace_class_other by exact Hne. reflexivity.
Qed.

(** What a hook leaves under a name of a namespace is what was there,
    wrapped some number of times. *)
Lemma run_hook_vars_iter h : forall cls w c name,
  exists j,
    class_vars (run_hook heap limit h cls w) c !! name =
    Nat.iter j (trace_attr heap limit name) <$> class_vars w c !! name.
Proof.
  induction h as [| tag | original IH bound]; intros cls w c name; simpl.
  - exists 0. destruct (class_vars w c !! name); reflexivity.
  - exists 0. unfold class_vars. simpl. destruct (classes w !! c) as [k|];
      [destruct (cls_dict k !! name)|]; reflexivity.
  - destruct (IH bound w c name) as [j Hj].
    rewrite trace_class_vars_lookup. destruct (decide (c = cls)).
    + exists (S j). rewrite Hj. destruct (class_vars w c !! name); reflexivity.
    + exists j. exact Hj.
Qed.

Lemma trace_attr_iter_other name a j :
  (forall f, a <> AFunction f) -> Nat.iter j (trace_attr heap limit name) a = a.
Proof.
  intros Hnf. induction j as [|j IH]; simpl; [reflexivity|]. rewrite IH.
  destruct a; try reflexivity. exfalso. exact (Hnf f eq_refl).
Qed.

Lemma trace_attr_iter_function name f j :
  exists g, Nat.iter j (trace_attr heap limit name) (AFunction f) = AFunction g /\
            fn_name g = fn_name f /\ fn_params g = fn_params f.
Proof.
  induction j as [|j [g [Hg [Hn Hp]]]]; simpl.
  - exists f. repeat split; reflexivity.
  - rewrite Hg. simpl. destruct (negb (String.prefix "_" name)).
    + exists (trace_method heap limit g). repeat split; assumption.
    + exists g. repeat split; assumption.
Qed.

Lemma define_class_vars_new name base body (own : option string) w attr_name :
  class_vars
    {| classes :=
         classes w ++
         [{| cls_name := name;
             cls_mro := length (classes w) ::
               match base with
               | Some b => match classes w !! b with Some k => cls_mro k | None => [] end
               | None => []
               end;
             cls_dict := body; cls_hook := HUser <$> own |}];
       hook_calls := hook_calls w |} (length (classes w)) !! attr_name
  = body !! attr_name.
Proof.
  unfold class_vars. cbn [classes].
  rewrite list_lookup_middle by reflexivity. reflexivity.
Qed.

(** X12.  Whatever hooks a class statement runs, the namespace of the
    new class has the names of the body and no other; what is not a
    plain function (a static method, a class method, a constant) is the
    object of the body, public name or not; and a function is still a
    function with the same [__name__] and signature. *)
Theorem define_class_keeps_names w name base body own :
  let c := fst (define_class heap limit name base body own w) in
  let w' := snd (define_class heap limit name base body own w) in
  (forall n, class_vars w' c !! n = None <-> body !! n = None) /\
  (forall n a, body !! n = Some a -> (forall f, a <> AFunction f) ->
               class_vars w' c !! n = Some a) /\
  (forall n f, body !! n = Some (AFunction f) ->
               exists g, class_vars w' c !! n = Some (AFunction g) /\
                         fn_name g = fn_name f /\ fn_params g = fn_params f).
Proof.
  intros c w'. subst c w'. unfold define_class. cbn [fst snd].
  split; [|split].
  - intros n.
    match goal with |- class_vars (run_hook _ _ ?h ?c ?w1) _ !! _ = None <-> _ =>
      destruct (run_hook_vars_iter h c w1 (length (classes w)) n) as [j Hj] end.
    rewrite Hj, define_class_vars_new.
    destruct (body !! n); simpl; split; intros H; try discriminate; reflexivity.
  - intros n a Ha Hnf.
    match goal with |- class_vars (run_hook _ _ ?h ?c ?w1) _ !! _ = _ =>
      destruct (run_hook_vars_iter h c w1 (length (classes w)) n) as [j Hj] end.
    rewrite Hj, define_class_vars_new, Ha. simpl.
    rewrite trace_attr_iter_other by exact Hnf. reflexivity.
  - intros n f Hf.
    match goal with |- exists g, class_vars (run_hook _ _ ?h ?c ?w1) _ !! _ = _ /\ _ =>
      destruct (run_hook_vars_iter h c w1 (length (classes w)) n) as [j Hj] end.
    destruct (trace_attr_iter_function n f j) as [g [Hg [Hn Hp]]].
    exists g. rewrite Hj, define_class_vars_new, Hf. simpl. rewrite Hg.
    repeat split; assumption.
Qed.

(** X13.  A hook written by the user that a class inherits is called
    with each new subclass.  Once the class is decorated, the hook is
    still called once for each new subclass, but with the decorated
    class, not with the subclass. *)
Theorem user_hook_sees_decorated_class w cls k tag name body own :
  world_ok w = true ->
  classes w !! cls = Some k ->
  find_hook (classes w) (cls_mro k) = HUser tag ->
  hook_calls (snd (define_class heap limit name (Some cls) body own w))
    = hook_calls w ++ [(tag, length (classes w))] /\
  hook_calls (snd (define_class heap limit name (Some cls) body own
                     (snd (trace_protocol cls w))))
    = hook_calls w ++ [(tag, cls)].
Proof.
  intros Hok Hk Hfind. split.
  - unfold define_class. rewrite Hk. cbn [snd classes].
    rewrite Hfind. reflexivity.
  - assert (Hcn : cls < length (classes w)) by (eapply lookup_lt_Some; exact Hk).
    destruct (classes_ok_lookup _ _ 0 cls k Hok Hk) as [[rest Hmro] _].
    simpl in Hmro.
    set (k1 := {| cls_name := cls_name k; cls_mro := cls_mro k; cls_dict := cls_dict k;
                  cls_hook := Some (HTrace (HUser tag) cls) |}).
    assert (Hw1 : snd (trace_protocol cls w)
                  = {| classes := <[cls := k1]> (classes w);
                       hook_calls := hook_calls w |}).
    { unfold trace_protocol. rewrite Hk, Hfind. reflexivity. }
    rewrite Hw1. unfold define_class. cbn [snd classes hook_calls].
    rewrite list_lookup_insert_eq by exact Hcn.
    change (cls_mro k1) with (cls_mro k). rewrite Hmro.
    rewrite (find_hook_cons _ cls rest k1)
      by (apply list_lookup_insert_eq; exact Hcn).
    cbn [cls_hook k1 run_hook]. rewrite trace_class_calls. reflexivity.
Qed.

(** X15.  Wrapping reaches every level below a decorated class.  In a
    well-formed table, under any parent along whose MRO the first hook
    is a closure of [trace_protocol], the new class gets each public
    function of its body wrapped once.  When the new class declares no
    [__init_subclass__] of its own, the same closure is the first hook
    along its own MRO, so that the same holds for the classes defined
    under it; when it declares one, that hook is the first along its
    MRO instead. *)
Theorem define_class_below_decorated w b kb original bound name body own :
  world_ok w = true ->
  classes w !! b = Some kb ->
  find_hook (classes w) (cls_mro kb) = HTrace original bound ->
  let c := fst (define_class heap limit name (Some b) body own w) in
  let w' := snd (define_class heap limit name (Some b) body own w) in
  (forall n f, body !! n = Some (AFunction f) -> String.prefix "_" n = false ->
               class_vars w' c !! n = Some (AFunction (trace_method heap limit f))) /\
  (exists kc, classes w' !! c = Some kc /\ cls_mro kc = c :: cls_mro kb /\
              find_hook (classes w') (cls_mro kc) =
              match own with
              | Some tag => HUser tag
              | None => HTrace original bound
              end) /\
  world_ok w' = true.
Proof.
  intros Hok Hb Hfind c w'.
  assert (Hbounded : hook_bounded (length (classes w)) (HTrace original bound) = true).
  { rewrite <- Hfind. apply find_hook_bounded. intros j k h Hj Hh.
    exact (proj2 (classes_ok_lookup _ _ 0 j k Hok Hj) h Hh). }
  destruct (define_class_traced heap limit w b kb name body own original bound
              (length (classes w)) Hb Hfind Hbounded (Nat.le_refl _))
    as [Hc [Hnew _]].
  fold c in Hc. fold w' in Hnew. rewrite <- Hc in Hnew.
  split; [|split].
  - intros n f Hf Hpub. unfold class_vars. rewrite Hnew. simpl.
    rewrite map_lookup_imap, Hf. simpl. rewrite Hpub. reflexivity.
  - eexists. split; [exact Hnew|]. split; [rewrite Hc; reflexivity|].
    cbn [cls_mro]. rewrite (find_hook_cons _ _ _ _ Hnew). cbn [cls_hook].
    destruct own as [tag|]; [reflexivity|]. cbn [fmap option_fmap option_map].
    rewrite <- Hfind.
    transitivity (find_hook
                    (classes w ++
                     [{| cls_name := name; cls_mro := length (classes w) :: cls_mro kb;
                         cls_dict := body; cls_hook := None |}]) (cls_mro kb)).
    + apply find_hook_shape. intros i. subst w'. unfold define_class.
      rewrite Hb. cbn [snd classes]. rewrite run_hook_shape. reflexivity.
    + apply find_hook_new. reflexivity.
  - apply world_ok_define_class. exact Hok.
Qed.

End ClassesMore.

(** ** The further properties on the example programs *)

Lemma serialize_value_sequence_witness :
  container_of flat_heap pair_value = Some (CTuple [VInt 1; handle]) /\
  sequence_items (CTuple [VInt 1; handle]) = Some [VInt 1; handle] /\
  serialize_value flat_heap 3 pair_value = Ok (VList [VInt 1; VStr "handle 7"]) /\
  exists outs,
    VList [VInt 1; VStr "handle 7"] = VList outs /\ length outs = 2 /\
    (forall i x, [VInt 1; handle] !! i = Some x ->
                 exists y, outs !! i = Some y /\ serialize_value flat_heap 2 x = Ok y).
Proof.
  split; [reflexivity|]. split; [reflexivity|]. split; [reflexivity|].
  exact (serialize_value_sequence flat_heap 2 pair_value _ _ _ eq_refl eq_refl eq_refl).
Defined.

Lemma serialize_value_first_error_witness :
  container_of flat_heap spoiled_list = Some (CList ([VInt 1] ++ unprintable :: [VInt 2])) /\
  (forall p, In p [VInt 1] -> is_ok (serialize_value flat_heap 2 p) = true) /\
  serialize_value flat_heap 2 unprintable = Raise boom /\
  serialize_value flat_heap 3 spoiled_list = Raise boom.
Proof.
  assert (Hpre : forall p, In p [VInt 1] -> is_ok (serialize_value flat_heap 2 p) = true).
  { intros p [<-|[]]. reflexivity. }
  split; [reflexivity|]. split; [exact Hpre|]. split; [reflexivity|].
  exact (serialize_value_first_error flat_heap 2 spoiled_list _ [VInt 1] unprintable
           [VInt 2] boom eq_refl eq_refl Hpre eq_refl).
Defined.

Lemma serialize_value_canonical_fixed_witness :
  canonical plain_json = true /\ height plain_json <= 5 /\
  serialize_value loop_heap 5 plain_json = Ok plain_json.
Proof.
  assert (Hc : canonical plain_json = true) by reflexivity.
  assert (Hh : height plain_json <= 5) by (simpl; lia).
  split; [exact Hc|]. split; [exact Hh|].
  exact (serialize_value_canonical_fixed loop_heap 5 plain_json Hc Hh).
Defined.

Lemma serialize_value_idempotent_witness :
  tame sample_dict = true /\ canonical_dumps sample_dict = true /\
  serialize_value flat_heap 6 sample_dict
    = Ok (VSDict [("1", VList [VFloat "2.5"]); ("None", VList [])]) /\
  serialize_value flat_heap 6 (VSDict [("1", VList [VFloat "2.5"]); ("None", VList [])])
    = Ok (VSDict [("1", VList [VFloat "2.5"]); ("None", VList [])]).
Proof.
  assert (Ht : tame sample_dict = true) by reflexivity.
  assert (Hd : canonical_dumps sample_dict = true) by reflexivity.
  assert (Hout : serialize_value flat_heap 6 sample_dict
                 = Ok (VSDict [("1", VList [VFloat "2.5"]); ("None", VList [])]))
    by reflexivity.
  split; [exact Ht|]. split; [exact Hd|]. split; [exact Hout|].
  destruct (serialize_value_idempotent flat_heap 6 sample_dict _ Ht Hd Hout) as [_ H].
  apply H. simpl. lia.
Defined.

Lemma unserializable_argument_fails_call_witness :
  (forall p, In p [VInt 1] -> is_ok (serialize_value flat_heap default_limit p) = true) /\
  serialize_value flat_heap default_limit unprintable = Raise boom /\
  sync_wrapper flat_heap default_limit add add_run an_X ([VInt 1] ++ unprintable :: []) []
    = (Raise boom, []).
Proof.
  assert (Hpre : forall p, In p [VInt 1] ->
                           is_ok (serialize_value flat_heap default_limit p) = true).
  { intros p [<-|[]]. reflexivity. }
  assert (Hx : serialize_value flat_heap default_limit unprintable = Raise boom)
    by reflexivity.
  split; [exact Hpre|]. split; [exact Hx|].
  exact (proj1 (unserializable_argument_fails_call flat_heap default_limit add an_X
                  [VInt 1] unprintable [] [] boom add_run stream_run Hpre Hx)).
Defined.

Lemma combine_args_entries_witness :
  Forall2 (fun a o => serialize_value flat_heap default_limit a = Ok o)
          [VInt 2; VInt 9; VInt 4] [VInt 2; VInt 9; VInt 4] /\
  Forall2 (fun kv o => serialize_value flat_heap default_limit (snd kv) = Ok o)
          [("b", VInt 3)] [VInt 3] /\
  combine_args flat_heap default_limit add [VInt 2; VInt 9; VInt 4] [("b", VInt 3)]
    = Ok [("a", VInt 2); ("b", VInt 3); ("position_3", VInt 4)].
Proof.
  assert (Hargs : Forall2 (fun a o => serialize_value flat_heap default_limit a = Ok o)
                          [VInt 2; VInt 9; VInt 4] [VInt 2; VInt 9; VInt 4])
    by (repeat constructor).
  assert (Hkw : Forall2 (fun kv o => serialize_value flat_heap default_limit (snd kv) = Ok o)
                        [("b", VInt 3)] [VInt 3])
    by (repeat constructor).
  split; [exact Hargs|]. split; [exact Hkw|].
  exact (proj1 (combine_args_entries flat_heap default_limit add _ _ _ _ Hargs Hkw)).
Defined.

Lemma wrapper_submits_one_span_witness :
  create_span_context flat_heap default_limit find an_X [VStr "k"] [] =
    Ok ("X", "find",
        [("__autotraced__", VBool true); ("__class__", VStr "X");
         ("__method__", VStr "find"); ("__type__", VStr "async");
         ("__args__", VStr "{'key': 'k'}")]) /\
  find_run an_X [VStr "k"] [] = (Raise not_found, []) /\
  exists sp,
    snd (async_wrapper flat_heap default_limit find find_run an_X [VStr "k"] []) = [] ++ [sp] /\
    span_name sp = "X.find".
Proof.
  assert (Hctx : create_span_context flat_heap default_limit find an_X [VStr "k"] [] =
    Ok ("X", "find",
        [("__autotraced__", VBool true); ("__class__", VStr "X");
         ("__method__", VStr "find"); ("__type__", VStr "async");
         ("__args__", VStr "{'key': 'k'}")])) by reflexivity.
  assert (Hrun : find_run an_X [VStr "k"] [] = (Raise not_found, [])) by reflexivity.
  split; [exact Hctx|]. split; [exact Hrun|].
  destruct (wrapper_submits_one_span flat_heap default_limit find find_run an_X
              [VStr "k"] [] _ _ _ _ _ _ Hctx Hrun (or_intror eq_refl))
    as [sp [Hsp [Hname _]]].
  exists sp. split; [exact Hsp | exact Hname].
Defined.

Lemma async_wrapper_outcomes_witness :
  create_span_context loop_heap default_limit me an_X [] [] =
    Ok ("X", "me",
        [("__autotraced__", VBool true); ("__class__", VStr "X");
         ("__method__", VStr "me"); ("__type__", VStr "sync");
         ("__args__", VStr "{}")]) /\
  me_run an_X [] [] = (Ok (VRef 0), []) /\
  fst (async_wrapper loop_heap default_limit me me_run an_X [] []) = Raise RecursionError.
Proof.
  assert (Hctx : create_span_context loop_heap default_limit me an_X [] [] =
    Ok ("X", "me",
        [("__autotraced__", VBool true); ("__class__", VStr "X");
         ("__method__", VStr "me"); ("__type__", VStr "sync");
         ("__args__", VStr "{}")])) by reflexivity.
  assert (Hrun : me_run an_X [] [] = (Ok (VRef 0), [])) by reflexivity.
  split; [exact Hctx|]. split; [exact Hrun|].
  pose proof (async_wrapper_outcomes loop_heap default_limit me me_run an_X [] []
                (VRef 0) [] _ _ _ Hctx Hrun) as H.
  cbv zeta in H. destruct H as [_ [_ H]].
  rewrite serialize_value_loop in H. cbn [is_exception exn_str] in H.
  destruct H as [H _]. rewrite H. reflexivity.
Defined.

Lemma async_gen_wrapper_stream_witness :
  create_span_context flat_heap default_limit find an_X [VStr "k"] [] =
    Ok ("X", "find",
        [("__autotraced__", VBool true); ("__class__", VStr "X");
         ("__method__", VStr "find"); ("__type__", VStr "async");
         ("__args__", VStr "{'key': 'k'}")]) /\
  gen_items (async_gen_wrapper flat_heap default_limit find find_stream an_X [VStr "k"] [])
    = [VStr "first"] /\
  gen_ending (async_gen_wrapper flat_heap default_limit find find_stream an_X [VStr "k"] [])
    = Raise not_found.
Proof.
  assert (Hctx : create_span_context flat_heap default_limit find an_X [VStr "k"] [] =
    Ok ("X", "find",
        [("__autotraced__", VBool true); ("__class__", VStr "X");
         ("__method__", VStr "find"); ("__type__", VStr "async");
         ("__args__", VStr "{'key': 'k'}")])) by reflexivity.
  split; [exact Hctx|].
  destruct (async_gen_wrapper_stream flat_heap default_limit find find_stream an_X
              [VStr "k"] [] _ _ _ Hctx) as [Hitems [Hend _]].
  split; [exact Hitems | exact Hend].
Defined.

Lemma async_gen_wrapper_closed_witness :
  create_span_context flat_heap default_limit stream an_X [] [] =
    Ok ("X", "stream",
        [("__autotraced__", VBool true); ("__class__", VStr "X");
         ("__method__", VStr "stream"); ("__type__", VStr "async_generator");
         ("__args__", VStr "{}")]) /\
  take 2 (Fresh (stream_run an_X [] []))
    = ([VStr "a"; VStr "b"], [], Waiting (gen_of_items [VStr "c"]) []) /\
  take_then_close 0
    (async_gen_wrapper flat_heap default_limit stream stream_run an_X [] [])
    = ([], [], Over).
Proof.
  assert (Hctx : create_span_context flat_heap default_limit stream an_X [] [] =
    Ok ("X", "stream",
        [("__autotraced__", VBool true); ("__class__", VStr "X");
         ("__method__", VStr "stream"); ("__type__", VStr "async_generator");
         ("__args__", VStr "{}")])) by reflexivity.
  assert (Htake : take 2 (Fresh (stream_run an_X [] []))
                  = ([VStr "a"; VStr "b"], [], Waiting (gen_of_items [VStr "c"]) []))
    by reflexivity.
  split; [exact Hctx|]. split; [exact Htake|].
  exact (proj1 (async_gen_wrapper_closed flat_heap default_limit stream stream_run an_X
                  [] [] _ _ _ 1 _ _ _ _ Hctx Htake)).
Defined.

Lemma trace_method_twice_witness :
  fn_body add = SyncBody add_run /\
  add_run an_X [VInt 2; VInt 3] [] = (Ok (VInt 5), []) /\
  serialize_value flat_heap default_limit (VInt 5) = Ok (VInt 5) /\
  fn_wrapped (trace_method flat_heap default_limit (trace_method flat_heap default_limit add))
    = Some (trace_method flat_heap default_limit add).
Proof.
  assert (Hbody : fn_body add = SyncBody add_run) by reflexivity.
  assert (Hrun : add_run an_X [VInt 2; VInt 3] [] = (Ok (VInt 5), [])) by reflexivity.
  assert (Hser : serialize_value flat_heap default_limit (VInt 5) = Ok (VInt 5))
    by reflexivity.
  assert (Hctx : create_span_context flat_heap default_limit add an_X [VInt 2; VInt 3] [] =
    Ok ("X", "add",
        [("__autotraced__", VBool true); ("__class__", VStr "X");
         ("__method__", VStr "add"); ("__type__", VStr "sync");
         ("__args__", VStr "{'a': 2, 'b': 3}")])) by reflexivity.
  split; [exact Hbody|]. split; [exact Hrun|]. split; [exact Hser|].
  destruct (trace_method_twice flat_heap default_limit add add_run an_X
              [VInt 2; VInt 3] [] (VInt 5) [] (VInt 5) _ _ _ Hbody Hctx Hrun Hser)
    as [_ [_ [H _]]].
  exact H.
Defined.

Lemma user_hook_sees_decorated_class_witness :
  world_ok hooked_world = true /\
  (exists k, classes hooked_world !! 0 = Some k /\
             find_hook (classes hooked_world) (cls_mro k) = HUser "register") /\
  hook_calls (snd (define_class flat_heap default_limit "S" (Some 0) body_C None
                     hooked_world))
    = [("register", 1)] /\
  hook_calls (snd (define_class flat_heap default_limit "S" (Some 0) body_C None
                     (snd (trace_protocol 0 hooked_world))))
    = [("register", 0)].
Proof.
  assert (Hok : world_ok hooked_world = true) by reflexivity.
  split; [exact Hok|]. split; [eexists; split; reflexivity|].
  exact (user_hook_sees_decorated_class flat_heap default_limit hooked_world 0 _
           "register" "S" body_C None Hok eq_refl eq_refl).
Defined.

Lemma define_class_below_decorated_witness :
  world_ok world_B = true /\
  (exists kb, classes world_B !! 1 = Some kb /\
              find_hook (classes world_B) (cls_mro kb) = HTrace HObject 0) /\
  class_vars world_C 2 !! "stream"
    = Some (AFunction (trace_method flat_heap default_limit stream)).
Proof.
  assert (Hok : world_ok world_B = true) by reflexivity.
  split; [exact Hok|]. split; [eexists; split; reflexivity|].
  destruct (define_class_below_decorated flat_heap default_limit world_B 1 _ HObject 0
              "C" body_C None Hok eq_refl eq_refl) as [H _].
  exact (H "stream" stream eq_refl eq_refl).
Defined.
